(** * SENSAI backend: validation, persistence mapping and quiz aggregation

    A shallow embedding of [src/main.py]: the request models ([QuizIn],
    [ResumeIn] and its sub-records), the quiz endpoints
    ([create_quiz_result], [get_quiz_stats], [get_recent_quizzes]) and the
    resume upsert ([upsert_resume]).

    Conventions.
    - A [datetime] is the number of microseconds since [datetime.min]
      (0001-01-01), an [N]; [datetime_min] is 0.  The datetimes of the
      stored documents are taken as comparable with each other; the section
      on time zones keeps offset-aware and offset-naive ones apart.
    - [datetime.now(timezone.utc)] reads a clock.  The world carries the
      clock as the sequence of its readings and the number of readings taken
      so far; every call of [now] takes the next one.
    - Handlers run in a state-and-exception monad over the world; a raised
      exception keeps the world as it was at the raise.
    - A stored quiz document is a record whose fields are absent or hold a
      value of the type the schema gives them; this is what [it.get(k, d)]
      distinguishes.  A stored resume document is a finite map from keys to
      values, because [upsert_resume] works on keys ([setdefault], [$set]).
    - [round(x, 2)] on floats is kept symbolic: [Round2Div s n] stands for
      [round(s / n, 2)]. *)

From Stdlib Require Import ZArith NArith List Lia.
From stdpp Require Import base option list sorting gmap strings pretty.
Import ListNotations.

Local Open Scope Z_scope.
Local Set Warnings "-register-all".

(** ** Errors, worlds and the handler monad *)

(** What a pydantic constraint reports for a field. *)
Inductive constraint :=
| Missing
| GreaterThanEqual (bound : Z)
| LessThanEqual (bound : Z).

(** Where in the body: a key, or a position in a list. *)
Inductive loc_item :=
| Key (name : string)
| Index (i : nat).

Definition field_error : Type := list loc_item * constraint.

Inductive error :=
| ValidationError (errs : list field_error)
| HTTPException (status_code : Z) (detail : string)
| StorageUnavailable.

Definition datetime : Type := N.
Bind Scope N_scope with datetime.

Definition datetime_min : datetime := 0%N.

(** A stored quiz document: [None] is an absent key. *)
Record QuizDoc := mkQuizDoc {
  q_user_id : string;
  q_score : option Z;
  q_total_questions : option Z;
  q_correct_answers : option Z;
  q_feedback : option (option string);
  q_created_at : option datetime;
  q_updated_at : option datetime
}.

(** Values of a resume document. *)
Inductive value :=
| VNone
| VInt (z : Z)
| VStr (s : string)
| VDate (t : datetime)
| VList (l : list value)
| VDoc (fields : list (string * value)).

(** The two collections, [db["quiz"]] and [db["resume"]], in the store's
    natural (insertion) order. *)
Record Database := mkDatabase {
  quiz : list QuizDoc;
  resume : list (gmap string value)
}.

Record World := mkWorld {
  db : option Database;
  clock : nat → datetime;
  reads : nat
}.

Definition M (A : Type) : Type := World → (error + A) * World.

Definition ret {A} (a : A) : M A := λ w, (inr a, w).

Definition bind {A B} (m : M A) (k : A → M B) : M B :=
  λ w, match m w with
       | (inl e, w') => (inl e, w')
       | (inr a, w') => k a w'
       end.

Definition raise {A} (e : error) : M A := λ w, (inl e, w).

Notation "'let*' x ':=' m 'in' k" := (bind m (λ x, k))
  (at level 10, x name, m at level 100, k at level 200).

(** [datetime.now(timezone.utc)] *)
Definition now : M datetime :=
  λ w, (inr (clock w (reads w)),
        {| db := db w; clock := clock w; reads := S (reads w) |}).

Definition get_db : M (option Database) := λ w, (inr (db w), w).

Definition put_db (d : Database) : M unit :=
  λ w, (inr tt, {| db := Some d; clock := clock w; reads := reads w |}).

(** ** Request models *)

(** A request body for [QuizIn] as it arrives: [None] is a key the body does
    not have; for [feedback], [Some None] is a JSON null. *)
Record RawQuiz := mkRawQuiz {
  raw_user_id : option string;
  raw_score : option Z;
  raw_total_questions : option Z;
  raw_correct_answers : option Z;
  raw_feedback : option (option string)
}.

Record QuizIn := mkQuizIn {
  user_id : string;
  score : Z;
  total_questions : Z;
  correct_answers : Z;
  feedback : option string
}.

(** A required [str] field: any string passes, the empty one too. *)
Definition str_field (name : list loc_item) (o : option string)
  : list field_error + string :=
  match o with
  | None => inl [(name, Missing)]
  | Some s => inr s
  end.

(** A required [int] field, [Field(..., ge=, le=)]. *)
Definition int_field (name : list loc_item) (ge le : option Z) (o : option Z)
  : list field_error + Z :=
  match o with
  | None => inl [(name, Missing)]
  | Some z =>
      match ge with
      | Some lo =>
          if z <? lo then inl [(name, GreaterThanEqual lo)]
          else match le with
               | Some hi =>
                   if hi <? z then inl [(name, LessThanEqual hi)] else inr z
               | None => inr z
               end
      | None =>
          match le with
          | Some hi =>
              if hi <? z then inl [(name, LessThanEqual hi)] else inr z
          | None => inr z
          end
      end
  end.

(** An [Optional[T] = None] field. *)
Definition optional_field {A} (o : option (option A)) : option A :=
  match o with
  | None => None
  | Some v => v
  end.

Definition errors_of {A} (r : list field_error + A) : list field_error :=
  match r with
  | inl es => es
  | inr _ => []
  end.

Definition validate_user_id := str_field [Key "user_id"].
Definition validate_score := int_field [Key "score"] (Some 0) (Some 100).
Definition validate_total_questions :=
  int_field [Key "total_questions"] (Some 1) None.
Definition validate_correct_answers :=
  int_field [Key "correct_answers"] (Some 0) None.

(** Validation of a body against [QuizIn]: every field is checked and the
    errors of all fields are reported together. *)
Definition QuizIn_validate (raw : RawQuiz) : list field_error + QuizIn :=
  let u := validate_user_id (raw_user_id raw) in
  let s := validate_score (raw_score raw) in
  let t := validate_total_questions (raw_total_questions raw) in
  let c := validate_correct_answers (raw_correct_answers raw) in
  match u, s, t, c with
  | inr u', inr s', inr t', inr c' =>
      inr {| user_id := u'; score := s'; total_questions := t';
             correct_answers := c';
             feedback := optional_field (raw_feedback raw) |}
  | _, _, _, _ =>
      inl (errors_of u ++ errors_of s ++ errors_of t ++ errors_of c)
  end.

(** ** The document store behind the quiz endpoints *)

(** Modelled from the spec: [create_document] of the repository's [database]
    module, which is not among the sources.  The spec's [insert_quiz_result]:
    it appends a new document to the quiz collection, returns the record id
    the store assigns (here the position of the document) and fails with
    [StorageUnavailable] when the store is not configured. *)
Definition create_document (doc : QuizDoc) : M nat :=
  let* d := get_db in
  match d with
  | None => raise StorageUnavailable
  | Some d =>
      let* stored :=
        put_db {| quiz := quiz d ++ [doc]; resume := resume d |} in
      ret (length (quiz d))
  end.

Definition has_user_id (uid : string) (it : QuizDoc) : bool :=
  String.eqb (q_user_id it) uid.

(** Modelled from the spec: [get_documents] of the repository's [database]
    module, which is not among the sources.  The spec's words: it reads all
    quiz records of the user, or up to [limit] of them when a limit is given.
    The records come in the store's order, and a limit keeps the first
    [limit] of them. *)
Definition get_documents (uid : string) (limit : option Z)
  : M (list QuizDoc) :=
  let* d := get_db in
  match d with
  | None => raise StorageUnavailable
  | Some d =>
      let found := filter (λ it, has_user_id uid it = true) (quiz d) in
      match limit with
      | None => ret found
      | Some n => ret (take (Z.to_nat n) found)
      end
  end.

(** ** Python's [sorted] *)

(** [sorted] is stable, and the result of a stable sort is determined by the
    list and the key; insertion sort, each element put before the first one
    whose key is not smaller, computes it. *)
Section Sorted.
Context {A : Type} (key : A → datetime).

Fixpoint insert_by (x : A) (l : list A) : list A :=
  match l with
  | [] => [x]
  | y :: l' =>
      if (key x <=? key y)%N then x :: y :: l' else y :: insert_by x l'
  end.

Definition sorted (l : list A) : list A := foldr insert_by [] l.

(** [sorted(l, key=key, reverse=True)]: the list is reversed, sorted and
    reversed again, which keeps equal keys in their original order. *)
Definition sorted_reverse (l : list A) : list A := rev (sorted (rev l)).
End Sorted.

(** ** Quiz endpoints *)

Record QuizCreated := mkQuizCreated {
  id : nat;
  ok : bool
}.

(** [POST /api/quiz], the handler body. *)
Definition create_quiz_result (payload : QuizIn) : M QuizCreated :=
  let* created := now in
  let* updated := now in
  let doc := {| q_user_id := user_id payload;
                q_score := Some (score payload);
                q_total_questions := Some (total_questions payload);
                q_correct_answers := Some (correct_answers payload);
                q_feedback := Some (feedback payload);
                q_created_at := Some created;
                q_updated_at := Some updated |} in
  let* inserted_id := create_document doc in
  ret {| id := inserted_id; ok := true |}.

(** [POST /api/quiz] as the framework serves it: the body is validated
    against [QuizIn] first, and the handler runs only on a valid body. *)
Definition post_api_quiz (raw : RawQuiz) : M QuizCreated :=
  match QuizIn_validate raw with
  | inl errs => raise (ValidationError errs)
  | inr payload => create_quiz_result payload
  end.

(** A number of the statistics: an integer, or [round(num / den, 2)]. *)
Inductive number :=
| Int (z : Z)
| Round2Div (num : Z) (den : nat).

Record QuizStats := mkQuizStats {
  average_score : number;
  stats_total_questions : Z;
  latest_score : Z;
  count : nat
}.

(** [x.get("created_at", datetime.min)] *)
Definition created_at_key (x : QuizDoc) : datetime :=
  default datetime_min (q_created_at x).

(** [it.get("score", 0)] *)
Definition score_of (it : QuizDoc) : Z := default 0 (q_score it).

(** [int(it.get("total_questions", 0))] *)
Definition total_questions_of (it : QuizDoc) : Z :=
  default 0 (q_total_questions it).

Definition sum (l : list Z) : Z := foldr Z.add 0 l.

(** The statistics of the fetched records. *)
Definition quiz_stats_of (items : list QuizDoc) : QuizStats :=
  match items with
  | [] =>
      {| average_score := Int 0; stats_total_questions := 0;
         latest_score := 0; count := 0%nat |}
  | first :: _ =>
      let scores := map score_of items in
      let total := sum (map total_questions_of items) in
      let latest := List.last (sorted created_at_key items) first in
      {| average_score := Round2Div (sum scores) (length scores);
         stats_total_questions := total;
         latest_score := score_of latest;
         count := length items |}
  end.

(** [GET /api/quiz/stats] *)
Definition get_quiz_stats (uid : string) : M QuizStats :=
  let* items := get_documents uid None in
  ret (quiz_stats_of items).

(** [GET /api/quiz/recent], with [limit] given. *)
Definition get_recent_quizzes (uid : string) (limit : Z) : M (list QuizDoc) :=
  let* items := get_documents uid (Some limit) in
  let items_sorted := sorted_reverse created_at_key items in
  ret items_sorted.


(** ** Resume models *)

Record RawExperience := mkRawExperience {
  raw_company : option string;
  raw_role : option string;
  raw_exp_start : option string;
  raw_exp_end : option string;
  raw_exp_description : option (option string)
}.

Record ResumeExperience := mkResumeExperience {
  company : string;
  role : string;
  exp_start : string;
  exp_end : string;
  exp_description : option string
}.

Record RawEducation := mkRawEducation {
  raw_school : option string;
  raw_degree : option string;
  raw_edu_start : option string;
  raw_edu_end : option string;
  raw_details : option (option string)
}.

Record ResumeEducation := mkResumeEducation {
  school : string;
  degree : string;
  edu_start : string;
  edu_end : string;
  details : option string
}.

Record RawProject := mkRawProject {
  raw_name : option string;
  raw_link : option (option string);
  raw_proj_description : option (option string)
}.

Record ResumeProject := mkResumeProject {
  name : string;
  link : option string;
  proj_description : option string
}.

Record RawResume := mkRawResume {
  raw_resume_user_id : option string;
  raw_email : option (option string);
  raw_linkedin : option (option string);
  raw_twitter : option (option string);
  raw_summary : option (option string);
  raw_skills : option (list string);
  raw_experiences : option (list RawExperience);
  raw_education : option (list RawEducation);
  raw_projects : option (list RawProject)
}.

Record ResumeIn := mkResumeIn {
  resume_user_id : string;
  email : option string;
  linkedin : option string;
  twitter : option string;
  summary : option string;
  skills : list string;
  experiences : list ResumeExperience;
  education : list ResumeEducation;
  projects : list ResumeProject
}.

Definition ResumeExperience_validate (at_ : list loc_item)
    (raw : RawExperience) : list field_error + ResumeExperience :=
  let c := str_field (at_ ++ [Key "company"]) (raw_company raw) in
  let r := str_field (at_ ++ [Key "role"]) (raw_role raw) in
  let s := str_field (at_ ++ [Key "start"]) (raw_exp_start raw) in
  let e := str_field (at_ ++ [Key "end"]) (raw_exp_end raw) in
  match c, r, s, e with
  | inr c', inr r', inr s', inr e' =>
      inr {| company := c'; role := r'; exp_start := s'; exp_end := e';
             exp_description := optional_field (raw_exp_description raw) |}
  | _, _, _, _ =>
      inl (errors_of c ++ errors_of r ++ errors_of s ++ errors_of e)
  end.

Definition ResumeEducation_validate (at_ : list loc_item)
    (raw : RawEducation) : list field_error + ResumeEducation :=
  let c := str_field (at_ ++ [Key "school"]) (raw_school raw) in
  let r := str_field (at_ ++ [Key "degree"]) (raw_degree raw) in
  let s := str_field (at_ ++ [Key "start"]) (raw_edu_start raw) in
  let e := str_field (at_ ++ [Key "end"]) (raw_edu_end raw) in
  match c, r, s, e with
  | inr c', inr r', inr s', inr e' =>
      inr {| school := c'; degree := r'; edu_start := s'; edu_end := e';
             details := optional_field (raw_details raw) |}
  | _, _, _, _ =>
      inl (errors_of c ++ errors_of r ++ errors_of s ++ errors_of e)
  end.

Definition ResumeProject_validate (at_ : list loc_item)
    (raw : RawProject) : list field_error + ResumeProject :=
  match str_field (at_ ++ [Key "name"]) (raw_name raw) with
  | inr n =>
      inr {| name := n; link := optional_field (raw_link raw);
             proj_description :=
               optional_field (raw_proj_description raw) |}
  | inl es => inl es
  end.

(** A [List[T] = []] field: absent gives the empty list, otherwise every
    element is validated at its position. *)
Fixpoint validate_items {R A}
    (v : list loc_item → R → list field_error + A)
    (at_ : list loc_item) (i : nat) (l : list R)
  : list field_error + list A :=
  match l with
  | [] => inr []
  | x :: l' =>
      let a := v (at_ ++ [Index i]) x in
      let rest := validate_items v at_ (S i) l' in
      match a, rest with
      | inr a', inr rest' => inr (a' :: rest')
      | _, _ => inl (errors_of a ++ errors_of rest)
      end
  end.

Definition list_field {R A}
    (v : list loc_item → R → list field_error + A)
    (name : string) (o : option (list R)) : list field_error + list A :=
  match o with
  | None => inr []
  | Some l => validate_items v [Key name] 0 l
  end.

Definition ResumeIn_validate (raw : RawResume)
  : list field_error + ResumeIn :=
  let u := str_field [Key "user_id"] (raw_resume_user_id raw) in
  let x := list_field ResumeExperience_validate "experiences"
             (raw_experiences raw) in
  let d := list_field ResumeEducation_validate "education"
             (raw_education raw) in
  let p := list_field ResumeProject_validate "projects"
             (raw_projects raw) in
  match u, x, d, p with
  | inr u', inr x', inr d', inr p' =>
      inr {| resume_user_id := u';
             email := optional_field (raw_email raw);
             linkedin := optional_field (raw_linkedin raw);
             twitter := optional_field (raw_twitter raw);
             summary := optional_field (raw_summary raw);
             skills := default [] (raw_skills raw);
             experiences := x'; education := d'; projects := p' |}
  | _, _, _, _ =>
      inl (errors_of u ++ errors_of x ++ errors_of d ++ errors_of p)
  end.

(** ** [model_dump] and the resume collection *)

Definition dump_str (o : option string) : value :=
  match o with
  | None => VNone
  | Some s => VStr s
  end.

Definition dump_experience (e : ResumeExperience) : value :=
  VDoc [("company", VStr (company e)); ("role", VStr (role e));
        ("start", VStr (exp_start e)); ("end", VStr (exp_end e));
        ("description", dump_str (exp_description e))].

Definition dump_education (e : ResumeEducation) : value :=
  VDoc [("school", VStr (school e)); ("degree", VStr (degree e));
        ("start", VStr (edu_start e)); ("end", VStr (edu_end e));
        ("details", dump_str (details e))].

Definition dump_project (p : ResumeProject) : value :=
  VDoc [("name", VStr (name p)); ("link", dump_str (link p));
        ("description", dump_str (proj_description p))].

(** The keys of [ResumeIn], in declaration order. *)
Definition ResumeIn_fields : list string :=
  ["user_id"; "email"; "linkedin"; "twitter"; "summary"; "skills";
   "experiences"; "education"; "projects"].

(** [payload.model_dump()]: every declared field is a key of the result,
    whether the body had it or not. *)
Definition model_dump (payload : ResumeIn) : gmap string value :=
  list_to_map
    [("user_id", VStr (resume_user_id payload));
     ("email", dump_str (email payload));
     ("linkedin", dump_str (linkedin payload));
     ("twitter", dump_str (twitter payload));
     ("summary", dump_str (summary payload));
     ("skills", VList (map VStr (skills payload)));
     ("experiences", VList (map dump_experience (experiences payload)));
     ("education", VList (map dump_education (education payload)));
     ("projects", VList (map dump_project (projects payload)))].

(** [d.setdefault(k, v)] *)
Definition setdefault (k : string) (v : value) (d : gmap string value)
  : gmap string value :=
  match d !! k with
  | Some _ => d
  | None => <[k := v]> d
  end.

(** The filter [{"user_id": uid}]: the field equals [uid], or is an array
    with [uid] among its elements. *)
Definition is_uid (uid : string) (v : value) : bool :=
  match v with
  | VStr s => String.eqb s uid
  | _ => false
  end.

Definition matches (uid : string) (d : gmap string value) : bool :=
  match d !! "user_id" with
  | Some (VList l) => existsb (is_uid uid) l
  | Some v => is_uid uid v
  | None => false
  end.

(** [coll.update_one({"user_id": uid}, {"$set": fields}, upsert=True)]: the
    first matching document gets every key of [fields] set and keeps its
    other keys; without a match a document made of the filter's equality
    and of [fields] is inserted.  The [_id] the store adds is left out. *)
Fixpoint update_one (uid : string) (fields : gmap string value)
    (coll : list (gmap string value)) : list (gmap string value) :=
  match coll with
  | [] => [fields ∪ {["user_id" := VStr uid]}]
  | d :: rest =>
      if matches uid d then (fields ∪ d) :: rest
      else d :: update_one uid fields rest
  end.

(** [coll.find_one({"user_id": uid})] *)
Definition find_one (uid : string) (coll : list (gmap string value))
  : option (gmap string value) :=
  head (filter (λ d, matches uid d = true) coll).

Record ResumeOk := mkResumeOk {
  resume_ok : bool
}.

(** [POST /api/resume], the handler body. *)
Definition upsert_resume (payload : ResumeIn) : M ResumeOk :=
  let* d := get_db in
  match d with
  | None => raise (HTTPException 500 "Database not configured")
  | Some d =>
      let payload_dict := model_dump payload in
      let* updated := now in
      let payload_dict := <["updated_at" := VDate updated]> payload_dict in
      let* created := now in
      let payload_dict := setdefault "created_at" (VDate created)
                            payload_dict in
      let* stored :=
        put_db {| quiz := quiz d;
                  resume := update_one (resume_user_id payload) payload_dict
                              (resume d) |} in
      ret {| resume_ok := true |}
  end.

(** [POST /api/resume] as the framework serves it. *)
Definition post_api_resume (raw : RawResume) : M ResumeOk :=
  match ResumeIn_validate raw with
  | inl errs => raise (ValidationError errs)
  | inr payload => upsert_resume payload
  end.

(** The resume collection of a world ([[]] without a store). *)
Definition resumes (w : World) : list (gmap string value) :=
  match db w with
  | Some d => resume d
  | None => []
  end.

(** The quiz collection of a world. *)
Definition quizzes (w : World) : list QuizDoc :=
  match db w with
  | Some d => quiz d
  | None => []
  end.

(** ** Vocabulary of the statements *)

Section Orders.
Context {A : Type} (key : A → datetime).

Definition ascending (a b : A) : Prop := (key a ≤ key b)%N.
Definition descending (a b : A) : Prop := (key b ≤ key a)%N.
End Orders.

(** The user's quiz records, in store order. *)
Definition quiz_records_of (uid : string) (d : Database) : list QuizDoc :=
  filter (λ it, has_user_id uid it = true) (quiz d).



(** [user_id] identifies a resume: no two documents of the collection match
    the same user. *)
Definition unique_user_ids (coll : list (gmap string value)) : Prop :=
  ∀ uid, (length (filter (λ d, matches uid d = true) coll) ≤ 1)%nat.

(** The statistics of a user without records. *)
Definition zero_stats : QuizStats :=
  {| average_score := Int 0; stats_total_questions := 0;
     latest_score := 0; count := 0%nat |}.


(** ** Example worlds *)

(** A configured, empty store and a clock that advances by one microsecond
    at every reading. *)
Definition empty_world : World :=
  {| db := Some {| quiz := []; resume := [] |};
     clock := λ n, N.of_nat n;
     reads := 0 |}.

Definition quiz_body (uid : string) (s : Z) : RawQuiz :=
  {| raw_user_id := Some uid; raw_score := Some s;
     raw_total_questions := Some 10; raw_correct_answers := Some 7;
     raw_feedback := None |}.

Definition stored_quiz (uid : string) (s : Z) (created updated : datetime)
  : QuizDoc :=
  {| q_user_id := uid; q_score := Some s; q_total_questions := Some 10;
     q_correct_answers := Some 7; q_feedback := Some None;
     q_created_at := Some created; q_updated_at := Some updated |}.

(** Three submissions of user ["u"], scores 80, 90 and 100 in that order. *)
Definition three_quizzes_world : World :=
  snd ((let* a := post_api_quiz (quiz_body "u" 80) in
        let* b := post_api_quiz (quiz_body "u" 90) in
        post_api_quiz (quiz_body "u" 100)) empty_world).

Definition three_quizzes_db : Database :=
  {| quiz := [stored_quiz "u" 80 0 1; stored_quiz "u" 90 2 3;
              stored_quiz "u" 100 4 5];
     resume := [] |}.

(** A record written by another producer, without [score] and without
    [created_at]. *)
Definition bare_quiz (uid : string) : QuizDoc :=
  {| q_user_id := uid; q_score := None; q_total_questions := Some 4;
     q_correct_answers := None; q_feedback := None;
     q_created_at := None; q_updated_at := None |}.

Definition bare_db : Database :=
  {| quiz := [stored_quiz "u" 80 0 1; bare_quiz "u"]; resume := [] |}.

Definition bare_world : World :=
  {| db := Some bare_db; clock := λ n, N.of_nat n; reads := 2 |}.

(** Two resume submissions of user ["u"]: the first with an e-mail address,
    a summary and a skill, the second with the [user_id] alone. *)
Definition first_resume_body : RawResume :=
  {| raw_resume_user_id := Some "u"; raw_email := Some (Some "u@example.org");
     raw_linkedin := None; raw_twitter := None;
     raw_summary := Some (Some "engineer"); raw_skills := Some ["rocq"];
     raw_experiences := None; raw_education := None; raw_projects := None |}.

Definition second_resume_body : RawResume :=
  {| raw_resume_user_id := Some "u"; raw_email := None;
     raw_linkedin := None; raw_twitter := None; raw_summary := None;
     raw_skills := None; raw_experiences := None; raw_education := None;
     raw_projects := None |}.

Definition first_resume : ResumeIn :=
  {| resume_user_id := "u"; email := Some "u@example.org"; linkedin := None;
     twitter := None; summary := Some "engineer"; skills := ["rocq"];
     experiences := []; education := []; projects := [] |}.

Definition second_resume : ResumeIn :=
  {| resume_user_id := "u"; email := None; linkedin := None;
     twitter := None; summary := None; skills := [];
     experiences := []; education := []; projects := [] |}.

Definition after_first_resume : World :=
  snd (post_api_resume first_resume_body empty_world).

(** ** Reading a resume *)

(** [db["resume"].find_one({"user_id": uid}, {"_id": 0})]: the first matching
    document, without its ["_id"]. *)
Definition find_one_without_id (uid : string)
    (coll : list (gmap string value)) : option (gmap string value) :=
  delete "_id" <$> find_one uid coll.

(** [GET /api/resume] *)
Definition get_resume (uid : string) : M (gmap string value) :=
  let* d := get_db in
  match d with
  | None => raise (HTTPException 500 "Database not configured")
  | Some d =>
      match find_one_without_id uid (resume d) with
      | None => ret ∅
      | Some doc => if decide (doc = ∅) then ret ∅ else ret doc
      end
  end.

(** ** Further vocabulary *)

(** Every stored score is within 0..100. *)
Definition scores_in_range (items : list QuizDoc) : Prop :=
  Forall (λ it, ∀ s, q_score it = Some s → 0 ≤ s ≤ 100) items.

(** The records of a list that were created at [t], in the order of the
    list. *)
Definition created_at_exactly (t : datetime) (items : list QuizDoc)
  : list QuizDoc :=
  filter (λ it, created_at_key it = t) items.

(** The keys an upsert writes: the fields of [ResumeIn] and the two
    timestamps. *)
Definition upsert_keys : list string :=
  ResumeIn_fields ++ ["updated_at"; "created_at"].

(** The world after a sequence of requests to [POST /api/resume]. *)
Definition after_resume_posts (bodies : list RawResume) (w : World) : World :=
  foldl (λ w raw, snd (post_api_resume raw w)) w bodies.

(** A raw experience and the validated one agree on every field. *)
Definition experience_of (raw : RawExperience) (e : ResumeExperience)
  : Prop :=
  raw_company raw = Some (company e)
  ∧ raw_role raw = Some (role e)
  ∧ raw_exp_start raw = Some (exp_start e)
  ∧ raw_exp_end raw = Some (exp_end e)
  ∧ exp_description e = optional_field (raw_exp_description raw).

Definition education_of (raw : RawEducation) (e : ResumeEducation) : Prop :=
  raw_school raw = Some (school e)
  ∧ raw_degree raw = Some (degree e)
  ∧ raw_edu_start raw = Some (edu_start e)
  ∧ raw_edu_end raw = Some (edu_end e)
  ∧ details e = optional_field (raw_details raw).

Definition project_of (raw : RawProject) (p : ResumeProject) : Prop :=
  raw_name raw = Some (name p)
  ∧ link p = optional_field (raw_link raw)
  ∧ proj_description p = optional_field (raw_proj_description raw).

(** A store whose resume of ["u"] was written by another producer: it has
    the store's ["_id"] and a key [ResumeIn] does not know. *)
Definition legacy_resume : gmap string value :=
  {["user_id" := VStr "u"; "_id" := VInt 7; "legacy" := VStr "kept"]}.

Definition legacy_db : Database :=
  {| quiz := []; resume := [legacy_resume] |}.

Definition legacy_world : World :=
  {| db := Some legacy_db; clock := λ n, N.of_nat n; reads := 0 |}.

(** ** Cover letters *)

(** A Python [str] where the code slices strings: the sequence of its code
    points.  [str_of] gives the [str] of an ASCII literal. *)
Abbreviation str := (list N).

Definition str_of (s : string) : str :=
  map Ascii.N_of_ascii (String.list_ascii_of_string s).

Definition newline : str := [10%N].

Record CoverLetterIn := mkCoverLetterIn {
  company_name : str;
  job_title : str;
  job_description : str;
  user_name : option str
}.

(** A parsed JSON document. *)
Inductive json :=
| JNull
| JBool (b : bool)
| JNum (literal : string)
| JStr (s : str)
| JArr (items : list json)
| JObj (members : gmap string json).

(** The [json=] argument of the request; 0.7 is [temperature_tenths = 7]. *)
Record ChatBody := mkChatBody {
  model : str;
  messages : list (string * str);
  temperature_tenths : Z
}.

Record Request := mkRequest {
  url : string;
  body : ChatBody;
  headers : list (string * str);
  timeout : Z
}.

Record CoverLetterOut := mkCoverLetterOut {
  text : json
}.

Inductive http_error :=
| HTTPError (status : Z) (detail : str).

Section CoverLetter.
(** The exceptions of the HTTP client and of the JSON decoder, the client
    itself, Python's [str(e)] and the process environment. *)
Context {E : Type}.

Record Response := mkResponse {
  status_code : Z;
  resp_text : str;
  resp_json : E + json
}.

(** What can be raised inside the [try]. *)
Inductive exn :=
| Raised (e : E)
| HTTPRaised (status : Z) (detail : str)
| IndexError
| KeyError
| TypeError
| AttributeError.

Context (post : Request → E + Response).
Context (str_exn : exn → str).
Context (getenv : gmap string str).

Definition system_prompt : str :=
  str_of "You are SENSAI, a professional career assistant. Craft tailored, concise, compelling "
  ++ str_of "cover letters with a confident, friendly tone. Keep to ~250-350 words.".

(** [payload.user_name or 'The candidate'] *)
Definition candidate (payload : CoverLetterIn) : str :=
  match user_name payload with
  | None | Some [] => str_of "The candidate"
  | Some n => n
  end.

Definition user_prompt (payload : CoverLetterIn) : str :=
  str_of "Candidate: " ++ candidate payload ++ newline
  ++ str_of "Target Role: " ++ job_title payload ++ str_of " at "
  ++ company_name payload ++ str_of "." ++ newline
  ++ str_of "Job Description:" ++ newline ++ job_description payload
  ++ newline ++ newline
  ++ str_of "Write a cover letter that highlights relevant skills and impact. Use a clean structure: "
  ++ str_of "intro, two short body paragraphs (skills + achievements), closing with a call to action.".

Definition chat_request (api_key : str) (payload : CoverLetterIn)
  : Request :=
  {| url := "https://api.openai.com/v1/chat/completions";
     body :=
       {| model := default (str_of "gpt-4o-mini") (getenv !! "OPENAI_MODEL");
          messages := [("system", system_prompt);
                       ("user", user_prompt payload)];
          temperature_tenths := 7 |};
     headers := [("Authorization", str_of "Bearer " ++ api_key);
                 ("Content-Type", str_of "application/json")];
     timeout := 30 |}.

(** [x.get(k, d)] on a parsed JSON value: only a dict has [get]. *)
Definition json_get (x : json) (k : string) (d : json) : exn + json :=
  match x with
  | JObj members => inr (default d (members !! k))
  | _ => inl AttributeError
  end.

(** [x[0]] on a parsed JSON value. *)
Definition json_first (x : json) : exn + json :=
  match x with
  | JArr [] => inl IndexError
  | JArr (item :: _) => inr item
  | JObj _ => inl KeyError
  | JStr [] => inl IndexError
  | JStr (c :: _) => inr (JStr [c])
  | JNull | JBool _ | JNum _ => inl TypeError
  end.

(** [data.get("choices", [{}])[0].get("message", {}).get("content", "")] *)
Definition content_of (data : json) : exn + json :=
  match json_get data "choices" (JArr [JObj ∅]) with
  | inl e => inl e
  | inr choices =>
      match json_first choices with
      | inl e => inl e
      | inr choice =>
          match json_get choice "message" (JObj ∅) with
          | inl e => inl e
          | inr message => json_get message "content" (JStr [])
          end
      end
  end.

(** The body of the [try]. *)
Definition ask (request : Request) : exn + CoverLetterOut :=
  match post request with
  | inl e => inl (Raised e)
  | inr resp =>
      if 400 <=? status_code resp
      then inl (HTTPRaised 500
                  (str_of "OpenAI error: " ++ take 200 (resp_text resp)))
      else match resp_json resp with
           | inl e => inl (Raised e)
           | inr data =>
               match content_of data with
               | inl e => inl e
               | inr t => inr {| text := t |}
               end
           end
  end.

(** [POST /api/cover-letter], the handler body. *)
Definition generate_cover_letter (payload : CoverLetterIn)
  : http_error + CoverLetterOut :=
  match getenv !! "OPENAI_API_KEY" with
  | None | Some [] => inl (HTTPError 400 (str_of "OPENAI_API_KEY not set"))
  | Some api_key =>
      match ask (chat_request api_key payload) with
      | inr out => inr out
      | inl e => inl (HTTPError 500 (str_exn e))
      end
  end.
End CoverLetter.

(** Example environment, payload and upstream answers for the cover-letter
    endpoint; the exceptions of the client are strings here. *)
Definition key_env : gmap string str :=
  {["OPENAI_API_KEY" := str_of "sk-test"]}.

Definition letter_request : CoverLetterIn :=
  {| company_name := str_of "ACME"; job_title := str_of "Engineer";
     job_description := str_of "Build things"; user_name := Some [] |}.

Definition answer_with (choices : option json) : Response (E := string) :=
  {| status_code := 200; resp_text := [];
     resp_json :=
       inr (JObj (match choices with
                  | Some c => {["choices" := c]}
                  | None => ∅
                  end)) |}.

Definition letter_answer : Response (E := string) :=
  answer_with
    (Some (JArr [JObj {["message" :=
                          JObj {["content" := JStr (str_of "Dear")]}]}])).

Definition upstream_refusal : Response (E := string) :=
  {| status_code := 429; resp_text := repeat 120%N 300;
     resp_json := inl "not json" |}.

Definition exn_name (e : exn (E := string)) : str :=
  match e with
  | Raised m => str_of m
  | HTTPRaised _ d => d
  | IndexError => str_of "IndexError"
  | KeyError => str_of "KeyError"
  | TypeError => str_of "TypeError"
  | AttributeError => str_of "AttributeError"
  end.

(** ** The diagnostic endpoint *)

(** U+2705, U+274C and U+26A0 U+FE0F, the marks of the report. *)
Definition check_mark : str := [9989%N].
Definition cross_mark : str := [10060%N].
Definition warning_sign : str := [9888%N; 65039%N].

Record Report := mkReport {
  backend : str;
  database : str;
  database_url : option str;
  database_name : option str;
  connection_status : str;
  collections : list str
}.

Definition set_database (v : str) (r : Report) : Report :=
  {| backend := backend r; database := v; database_url := database_url r;
     database_name := database_name r;
     connection_status := connection_status r;
     collections := collections r |}.

Definition set_database_url (v : str) (r : Report) : Report :=
  {| backend := backend r; database := database r; database_url := Some v;
     database_name := database_name r;
     connection_status := connection_status r;
     collections := collections r |}.

Definition set_database_name (v : str) (r : Report) : Report :=
  {| backend := backend r; database := database r;
     database_url := database_url r; database_name := Some v;
     connection_status := connection_status r;
     collections := collections r |}.

Definition set_connection_status (v : str) (r : Report) : Report :=
  {| backend := backend r; database := database r;
     database_url := database_url r; database_name := database_name r;
     connection_status := v; collections := collections r |}.

Definition set_collections (v : list str) (r : Report) : Report :=
  {| backend := backend r; database := database r;
     database_url := database_url r; database_name := database_name r;
     connection_status := connection_status r; collections := v |}.

(** [os.getenv(k)] as a condition: set and not empty. *)
Definition env_set (getenv : gmap string str) (k : string) : bool :=
  match getenv !! k with
  | None | Some [] => false
  | Some _ => true
  end.

Definition set_or_not (b : bool) : str :=
  if b then check_mark ++ str_of " Set" else cross_mark ++ str_of " Not Set".

Section Diagnostics.
(** The exceptions of the driver and Python's [str(e)] on them. *)
Context {E : Type} (str_e : E → str).

(** The store handle as the endpoint uses it: [db.name] and
    [db.list_collection_names()], either of which may raise. *)
Record DbHandle := mkDbHandle {
  db_name : E + str;
  list_collection_names : E + list str
}.

(** [GET /test] *)
Definition test_database (handle : option DbHandle)
    (getenv : gmap string str) : Report :=
  let response :=
    {| backend := check_mark ++ str_of " Running";
       database := cross_mark ++ str_of " Not Available";
       database_url := None;
       database_name := None;
       connection_status := str_of "Not Connected";
       collections := [] |} in
  let response :=
    match handle with
    | Some h =>
        let response :=
          set_database (check_mark ++ str_of " Available") response in
        let response :=
          set_database_url (check_mark ++ str_of " Configured") response in
        match db_name h with
        | inl e =>
            set_database
              (cross_mark ++ str_of " Error: " ++ take 50 (str_e e))
              response
        | inr n =>
            let response := set_database_name n response in
            let response :=
              set_connection_status (str_of "Connected") response in
            match list_collection_names h with
            | inr found =>
                let response := set_collections (take 10 found) response in
                set_database
                  (check_mark ++ str_of " Connected & Working") response
            | inl e =>
                set_database
                  (warning_sign ++ str_of " Connected but Error: "
                   ++ take 50 (str_e e))
                  response
            end
        end
    | None =>
        set_database
          (warning_sign ++ str_of " Available but not initialized") response
    end in
  let response :=
    set_database_url (set_or_not (env_set getenv "DATABASE_URL")) response in
  set_database_name (set_or_not (env_set getenv "DATABASE_NAME")) response.
End Diagnostics.

(** A store handle whose listing works and one whose listing fails. *)
Definition working_handle : DbHandle (E := string) :=
  {| db_name := inr (str_of "sensai");
     list_collection_names :=
       inr (map (λ n, [N.of_nat n]) (seq 0 12)) |}.

Definition failing_handle : DbHandle (E := string) :=
  {| db_name := inr (str_of "sensai");
     list_collection_names := inl "timed out" |}.

(** Four records of user ["u"] that the store returns out of order, two of
    them created at the same, latest instant. *)
Definition tied_quizzes_db : Database :=
  {| quiz := [stored_quiz "u" 80 5 5; stored_quiz "u" 90 9 9;
              stored_quiz "u" 70 9 9; stored_quiz "u" 60 2 2];
     resume := [] |}.

Definition tied_quizzes_world : World :=
  {| db := Some tied_quizzes_db; clock := λ n, N.of_nat n; reads := 10 |}.

(** A second write for ["u"] that changes the e-mail address and the
    skills, gives a null [linkedin], an experience, an education entry and
    a project, and omits the summary. *)
Definition replacing_resume_body : RawResume :=
  {| raw_resume_user_id := Some "u";
     raw_email := Some (Some "new@example.org");
     raw_linkedin := Some None; raw_twitter := None; raw_summary := None;
     raw_skills := Some ["ocaml"; "coq"];
     raw_experiences :=
       Some [mkRawExperience (Some "ACME") (Some "dev") (Some "2020")
               (Some "2022") (Some (Some "backend"))];
     raw_education :=
       Some [mkRawEducation (Some "MIT") (Some "BSc") (Some "2016")
               (Some "2020") None];
     raw_projects :=
       Some [mkRawProject (Some "sensai") (Some (Some "https://x.org"))
               None] |}.

Definition replacing_resume : ResumeIn :=
  {| resume_user_id := "u"; email := Some "new@example.org";
     linkedin := None; twitter := None; summary := None;
     skills := ["ocaml"; "coq"];
     experiences := [mkResumeExperience "ACME" "dev" "2020" "2022"
                       (Some "backend")];
     education := [mkResumeEducation "MIT" "BSc" "2016" "2020" None];
     projects := [mkResumeProject "sensai" (Some "https://x.org") None] |}.

(** Python's [str(e)] with the framework's rendering of an [HTTPException],
    its status code, a colon and its detail; the other exceptions as in
    [exn_name]. *)
Definition exn_str (e : exn (E := string)) : str :=
  match e with
  | HTTPRaised status detail =>
      str_of (pretty status) ++ str_of ": " ++ detail
  | other => exn_name other
  end.

(** ** Datetimes with and without a time zone *)

(** The sections above take the datetimes of the stored documents as
    comparable with each other and with [datetime.min].  Python compares two
    datetimes only when both carry a [tzinfo] or neither does:
    [datetime.now(timezone.utc)], which the endpoints write, is
    offset-aware, and [datetime.min], the sort key of a document without
    [created_at], is offset-naive.  This section keeps that apart. *)
Inductive awareness :=
| Naive
| Aware.

Definition same_awareness (a b : awareness) : bool :=
  match a, b with
  | Naive, Naive | Aware, Aware => true
  | _, _ => false
  end.

(** A quiz document as [get_documents] returns it, with the awareness of
    its [created_at]; the awareness means nothing for a document without
    [created_at]. *)
Record FetchedQuiz := mkFetchedQuiz {
  fetched : QuizDoc;
  created_at_tz : awareness
}.


Definition as_naive (d : QuizDoc) : FetchedQuiz :=
  {| fetched := d; created_at_tz := Naive |}.

(** [x.get("created_at", datetime.min)] *)
Definition created_at_tz_key (x : FetchedQuiz) : awareness * datetime :=
  match q_created_at (fetched x) with
  | Some t => (created_at_tz x, t)
  | None => (Naive, datetime_min)
  end.

(** [a < b] on datetimes; [None] is the [TypeError] "can't compare
    offset-naive and offset-aware datetimes". *)
Definition datetime_lt (a b : awareness * datetime) : option bool :=
  if same_awareness a.1 b.1 then Some (a.2 <? b.2)%N else None.

(** [sorted] with a comparison that can raise: the insertion sort of
    [sorted], [None] as soon as a comparison raises.  Whether a sort raises
    does not depend on the sorting algorithm: to order two or more keys it
    has to compare every key with another one. *)
Section SortedChecked.
Context {A : Type} (key : A → awareness * datetime).

Fixpoint insert_checked (x : A) (l : list A) : option (list A) :=
  match l with
  | [] => Some [x]
  | y :: l' =>
      match datetime_lt (key y) (key x) with
      | None => None
      | Some false => Some (x :: y :: l')
      | Some true => cons y <$> insert_checked x l'
      end
  end.

Definition sorted_checked (l : list A) : option (list A) :=
  foldr (λ x acc, acc ≫= insert_checked x) (Some []) l.

Definition sorted_reverse_checked (l : list A) : option (list A) :=
  (λ s, rev s) <$> sorted_checked (rev l).
End SortedChecked.

(** [get_quiz_stats] on the fetched documents; [None] is the [TypeError]
    of the sort, which the handler does not catch. *)
Definition quiz_stats_checked (items : list FetchedQuiz)
  : option QuizStats :=
  match items with
  | [] =>
      Some {| average_score := Int 0; stats_total_questions := 0;
              latest_score := 0; count := 0%nat |}
  | first :: _ =>
      let scores := map (λ it, score_of (fetched it)) items in
      let total := sum (map (λ it, total_questions_of (fetched it)) items) in
      match sorted_checked created_at_tz_key items with
      | None => None
      | Some by_created_at =>
          let latest := List.last by_created_at first in
          Some {| average_score := Round2Div (sum scores) (length scores);
                  stats_total_questions := total;
                  latest_score := score_of (fetched latest);
                  count := length items |}
      end
  end.

(** [get_recent_quizzes] on the fetched documents. *)
Definition recent_quizzes_checked (items : list FetchedQuiz)
  : option (list FetchedQuiz) :=
  sorted_reverse_checked created_at_tz_key items.


Definition naive_and_bare : list FetchedQuiz :=
  [as_naive (bare_quiz "u"); as_naive (stored_quiz "u" 80 5 5);
   as_naive (stored_quiz "u" 90 9 9)].

(** * Properties *)

(** ** The monad on a configured store *)

Lemma get_documents_all uid w d :
  db w = Some d →
  get_documents uid None w
  = (inr (quiz_records_of uid d), w).
Proof. intros Hd. unfold get_documents, bind, get_db. by rewrite Hd. Qed.

Lemma get_documents_limit uid n w d :
  db w = Some d →
  get_documents uid (Some n) w
  = (inr (take (Z.to_nat n) (quiz_records_of uid d)), w).
Proof. intros Hd. unfold get_documents, bind, get_db. by rewrite Hd. Qed.

Lemma get_quiz_stats_run uid w d :
  db w = Some d →
  get_quiz_stats uid w
  = (inr (quiz_stats_of (quiz_records_of uid d)), w).
Proof.
  intros Hd. unfold get_quiz_stats, bind.
  by rewrite (get_documents_all _ _ _ Hd).
Qed.

Lemma get_recent_quizzes_run uid n w d :
  db w = Some d →
  get_recent_quizzes uid n w
  = (inr (sorted_reverse created_at_key
            (take (Z.to_nat n) (quiz_records_of uid d))), w).
Proof.
  intros Hd. unfold get_recent_quizzes, bind.
  by rewrite (get_documents_limit _ _ _ _ Hd).
Qed.

Lemma has_user_id_true uid it : has_user_id uid it = true ↔ q_user_id it = uid.
Proof. unfold has_user_id. apply String.eqb_eq. Qed.

(** ** [sorted] permutes, orders, and keeps equal keys in place *)

Section SortedFacts.
Context {A : Type} (key : A → datetime).

Lemma insert_by_perm x l : insert_by key x l ≡ₚ x :: l.
Proof.
  induction l as [|y l IH]; simpl; [done|].
  destruct (key x <=? key y)%N; [done|].
  rewrite IH. apply Permutation_swap.
Qed.

Lemma sorted_perm l : sorted key l ≡ₚ l.
Proof.
  induction l as [|x l IH]; simpl; [done|].
  by rewrite insert_by_perm, IH.
Qed.

Lemma insert_by_ascending x l :
  StronglySorted (ascending key) l → StronglySorted (ascending key) (insert_by key x l).
Proof.
  induction 1 as [|y l Hl IH Hy]; simpl.
  - repeat constructor.
  - destruct (N.leb_spec (key x) (key y)) as [Hxy|Hxy].
    + constructor; [by constructor|].
      constructor; [done|].
      eapply Forall_impl; [exact Hy|].
      unfold ascending. intros z Hz. lia.
    + constructor; [done|].
      rewrite insert_by_perm. constructor; [|done].
      unfold ascending. lia.
Qed.

Lemma sorted_ascending l : StronglySorted (ascending key) (sorted key l).
Proof.
  induction l as [|x l IH]; simpl; [constructor|].
  by apply insert_by_ascending.
Qed.

Lemma ascending_rev l :
  StronglySorted (ascending key) l → StronglySorted (descending key) (rev l).
Proof.
  induction 1 as [|y l Hl IH Hy]; simpl; [constructor|].
  apply StronglySorted_app; split_and!.
  - intros a b Ha Hb%list_elem_of_singleton. subst b.
    apply list_elem_of_In, in_rev, list_elem_of_In in Ha.
    rewrite Forall_forall in Hy. by apply Hy.
  - done.
  - repeat constructor.
Qed.

Lemma sorted_reverse_perm l : sorted_reverse key l ≡ₚ l.
Proof.
  unfold sorted_reverse.
  by rewrite <- Permutation_rev, sorted_perm, <- Permutation_rev.
Qed.

Lemma sorted_reverse_descending l :
  StronglySorted (descending key) (sorted_reverse key l).
Proof. apply ascending_rev, sorted_ascending. Qed.

(** An element larger than all of a list goes to its end. *)
Lemma insert_by_above x s :
  Forall (λ y, (key y < key x)%N) s → insert_by key x s = s ++ [x].
Proof.
  induction 1 as [|y s Hy Hs IH]; simpl; [done|].
  destruct (N.leb_spec (key x) (key y)); [lia|]. by rewrite IH.
Qed.

(** An element not larger than the last one leaves the last one last. *)
Lemma insert_by_below x s r :
  (key x ≤ key r)%N →
  insert_by key x (s ++ [r]) = insert_by key x s ++ [r].
Proof.
  intros Hx. induction s as [|y s IH]; simpl.
  - destruct (N.leb_spec (key x) (key r)); [done|lia].
  - destruct (key x <=? key y)%N; [done|]. by rewrite IH.
Qed.

(** The last element of [sorted l] is the last of the elements of [l] that
    have the largest key. *)
Lemma sorted_ends_with l1 r l2 :
  Forall (λ y, (key y ≤ key r)%N) l1 →
  Forall (λ y, (key y < key r)%N) l2 →
  ∃ s, sorted key (l1 ++ r :: l2) = s ++ [r].
Proof.
  intros H1 H2. induction H1 as [|x l1 Hx H1 IH]; simpl.
  - exists (sorted key l2). apply insert_by_above.
    by rewrite sorted_perm.
  - destruct IH as [s Hs]. exists (insert_by key x s).
    change (foldr (insert_by key) [] (l1 ++ r :: l2))
      with (sorted key (l1 ++ r :: l2)).
    rewrite Hs. by apply insert_by_below.
Qed.

Lemma sorted_last l1 r l2 d :
  Forall (λ y, (key y ≤ key r)%N) l1 →
  Forall (λ y, (key y < key r)%N) l2 →
  List.last (sorted key (l1 ++ r :: l2)) d = r.
Proof.
  intros H1 H2. destruct (sorted_ends_with _ _ _ H1 H2) as [s ->].
  apply List.last_last.
Qed.

(** Every non-empty list splits at the last of its largest elements. *)
Lemma last_largest_split x l :
  ∃ l1 r l2, x :: l = l1 ++ r :: l2
    ∧ Forall (λ y, (key y ≤ key r)%N) l1
    ∧ Forall (λ y, (key y < key r)%N) l2.
Proof.
  revert x. induction l as [|x' l IH]; intros x.
  - exists [], x, []. by repeat constructor.
  - destruct (IH x') as (l1 & r & l2 & Heq & H1 & H2).
    destruct (N.le_gt_cases (key x) (key r)) as [Hle|Hgt].
    + exists (x :: l1), r, l2. rewrite Heq. split; [done|].
      split; [by constructor|done].
    + exists [], x, (x' :: l). split; [done|]. split; [constructor|].
      rewrite Heq. apply Forall_app. split.
      * eapply Forall_impl; [exact H1|]. simpl. intros. lia.
      * constructor; [lia|].
        eapply Forall_impl; [exact H2|]. simpl. intros. lia.
Qed.

(** Changing the elements without changing their keys commutes with
    sorting. *)
Lemma insert_by_map (f : A → A) x l :
  (∀ y, key (f y) = key y) →
  insert_by key (f x) (map f l) = map f (insert_by key x l).
Proof.
  intros Hf. induction l as [|y l IH]; simpl; [done|].
  rewrite !Hf. destruct (key x <=? key y)%N; simpl; [done|].
  by rewrite IH.
Qed.

Lemma sorted_map (f : A → A) l :
  (∀ y, key (f y) = key y) →
  sorted key (map f l) = map f (sorted key l).
Proof.
  intros Hf. induction l as [|x l IH]; simpl; [done|].
  rewrite IH. by apply insert_by_map.
Qed.

Lemma sorted_reverse_map (f : A → A) l :
  (∀ y, key (f y) = key y) →
  sorted_reverse key (map f l) = map f (sorted_reverse key l).
Proof.
  intros Hf. unfold sorted_reverse.
  by rewrite <- map_rev, sorted_map, map_rev.
Qed.
End SortedFacts.

(** ** Quiz statistics *)

Lemma quiz_records_of_none uid d :
  Forall (λ it, q_user_id it ≠ uid) (quiz d) → quiz_records_of uid d = [].
Proof.
  unfold quiz_records_of. induction 1 as [|it l Hit Hl IH]; [done|].
  rewrite filter_cons_False; [done|].
  by rewrite has_user_id_true.
Qed.


Lemma last_map_default {A B} (f : A → B) l d :
  List.last (map f l) (f d) = f (List.last l d).
Proof.
  induction l as [|x l IH]; [done|].
  destruct l as [|y l]; [done|]. exact IH.
Qed.

Lemma quiz_stats_of_cons first rest :
  quiz_stats_of (first :: rest)
  = {| average_score :=
         Round2Div (sum (map score_of (first :: rest)))
           (length (map score_of (first :: rest)));
       stats_total_questions := sum (map total_questions_of (first :: rest));
       latest_score :=
         score_of (List.last (sorted created_at_key (first :: rest)) first);
       count := length (first :: rest) |}.
Proof. reflexivity. Qed.


(** Scores 80, 90 and 100 submitted in that order: the mean is
    [round(270 / 3, 2)], the latest score is 100 and the count is 3. *)
Example quiz_stats_three_quizzes :
  fst (get_quiz_stats "u" three_quizzes_world)
  = inr {| average_score := Round2Div 270 3; stats_total_questions := 30;
           latest_score := 100; count := 3 |}.
Proof. reflexivity. Qed.

(** C5: a user without stored quiz records gets exactly the zero statistics
    [{average_score: 0, total_questions: 0, latest_score: 0, count: 0}], as
    a value and not as an error; the world is left as it was. *)
Theorem quiz_stats_zero_state uid w d :
  db w = Some d →
  Forall (λ it, q_user_id it ≠ uid) (quiz d) →
  get_quiz_stats uid w = (inr zero_stats, w).
Proof.
  intros Hd Hnone. rewrite (get_quiz_stats_run _ _ _ Hd).
  by rewrite quiz_records_of_none.
Qed.

(** C6: for a user with at least one stored quiz record, [latest_score] is
    the score of the record with the largest [created_at], a record without
    [created_at] counting as created at [datetime.min] and a record without
    [score] as scored 0.  When several records share the largest
    [created_at], it is the one of them that comes last in the store's
    order: the stable sort keeps equal keys in their original order and the
    last element is taken.  Such a record always exists, and whichever way
    the records split around it, [latest_score] is its score. *)
Theorem quiz_stats_latest_score uid w d :
  db w = Some d →
  quiz_records_of uid d ≠ [] →
  (∃ l1 r l2,
     quiz_records_of uid d = l1 ++ r :: l2
     ∧ Forall (λ it, (default datetime_min (q_created_at it)
                      ≤ default datetime_min (q_created_at r))%N) l1
     ∧ Forall (λ it, (default datetime_min (q_created_at it)
                      < default datetime_min (q_created_at r))%N) l2)
  ∧ ∀ l1 r l2,
      quiz_records_of uid d = l1 ++ r :: l2 →
      Forall (λ it, (default datetime_min (q_created_at it)
                     ≤ default datetime_min (q_created_at r))%N) l1 →
      Forall (λ it, (default datetime_min (q_created_at it)
                     < default datetime_min (q_created_at r))%N) l2 →
      ∃ st, get_quiz_stats uid w = (inr st, w)
        ∧ latest_score st = default 0 (q_score r).
Proof.
  intros Hd Hne. rewrite (get_quiz_stats_run _ _ _ Hd). split.
  - destruct (quiz_records_of uid d) as [|first rest]; [done|].
    apply (last_largest_split created_at_key first rest).
  - intros l1 r l2 Heq H1 H2. eexists. split; [done|].
    rewrite Heq.
    destruct l1 as [|x l1]; simpl app; rewrite quiz_stats_of_cons;
      cbn [latest_score].
    + change (r :: l2) with ([] ++ r :: l2). by rewrite sorted_last.
    + change (x :: l1 ++ r :: l2) with ((x :: l1) ++ r :: l2).
      by rewrite sorted_last.
Qed.

(** C5, at the store of three submissions of ["u"]: user ["v"] has no
    record. *)
Lemma quiz_stats_zero_state_witness :
  db three_quizzes_world = Some three_quizzes_db
  ∧ get_quiz_stats "v" three_quizzes_world
    = (inr zero_stats, three_quizzes_world).
Proof.
  split; [reflexivity|].
  apply (quiz_stats_zero_state "v" three_quizzes_world three_quizzes_db).
  - reflexivity.
  - repeat constructor; discriminate.
Defined.

(** C6, at a store that returns the records of ["u"] out of order, created
    at 5, 9, 9 and 2 with scores 80, 90, 70 and 60: the latest score is 70,
    the score of the second of the two records created at 9. *)
Lemma quiz_stats_latest_score_witness :
  ∃ st,
    get_quiz_stats "u" tied_quizzes_world = (inr st, tied_quizzes_world)
    ∧ latest_score st = 70.
Proof.
  apply (proj2 (quiz_stats_latest_score "u" tied_quizzes_world
                  tied_quizzes_db eq_refl ltac:(discriminate))
           [stored_quiz "u" 80 5 5; stored_quiz "u" 90 9 9]
           (stored_quiz "u" 70 9 9) [stored_quiz "u" 60 2 2]).
  - reflexivity.
  - repeat (apply Forall_cons; split; [simpl; lia|]). apply Forall_nil_2.
  - repeat (apply Forall_cons; split; [simpl; lia|]). apply Forall_nil_2.
Defined.

Lemma sum_app l1 l2 : sum (l1 ++ l2) = sum l1 + sum l2.
Proof. induction l1 as [|x l1 IH]; simpl; [done|]. rewrite IH. lia. Qed.





(** ** The recent list *)




(** ** Validation of quiz submissions *)

Lemma int_field_below at_ lo le z :
  z < lo → int_field at_ (Some lo) le (Some z)
           = inl [(at_, GreaterThanEqual lo)].
Proof. intros H. simpl. destruct (Z.ltb_spec z lo); [done|lia]. Qed.

Lemma int_field_above at_ lo hi z :
  lo ≤ z → hi < z →
  int_field at_ (Some lo) (Some hi) (Some z) = inl [(at_, LessThanEqual hi)].
Proof.
  intros H1 H2. simpl. destruct (Z.ltb_spec z lo); [lia|].
  destruct (Z.ltb_spec hi z); [done|lia].
Qed.

Lemma int_field_within at_ lo hi z :
  lo ≤ z → z ≤ hi → int_field at_ (Some lo) (Some hi) (Some z) = inr z.
Proof.
  intros H1 H2. simpl. destruct (Z.ltb_spec z lo); [lia|].
  destruct (Z.ltb_spec hi z); [lia|done].
Qed.

Lemma int_field_at_least at_ lo z :
  lo ≤ z → int_field at_ (Some lo) None (Some z) = inr z.
Proof. intros H. simpl. destruct (Z.ltb_spec z lo); [lia|done]. Qed.

(** A body is rejected as soon as one field is. *)
Lemma QuizIn_validate_rejects raw :
  errors_of (validate_user_id (raw_user_id raw)) ++
  errors_of (validate_score (raw_score raw)) ++
  errors_of (validate_total_questions (raw_total_questions raw)) ++
  errors_of (validate_correct_answers (raw_correct_answers raw)) ≠ [] →
  QuizIn_validate raw
  = inl (errors_of (validate_user_id (raw_user_id raw)) ++
         errors_of (validate_score (raw_score raw)) ++
         errors_of (validate_total_questions (raw_total_questions raw)) ++
         errors_of (validate_correct_answers (raw_correct_answers raw))).
Proof.
  unfold QuizIn_validate.
  destruct (validate_user_id _), (validate_score _),
    (validate_total_questions _), (validate_correct_answers _); simpl;
    try done.
Qed.

Lemma post_api_quiz_rejects raw w errs :
  QuizIn_validate raw = inl errs →
  post_api_quiz raw w = (inl (ValidationError errs), w).
Proof. intros H. unfold post_api_quiz. by rewrite H. Qed.

(** C3: a quiz submission whose [score] is outside 0..100, or whose
    [total_questions] is below 1, or whose [correct_answers] is below 0,
    fails with a [ValidationError] and leaves the world, hence the quiz
    collection, as it was; for values within these bounds the validation of
    the three fields succeeds, and with a [user_id] the whole body is
    valid. *)
Theorem quiz_bounds_enforced raw w :
  ((∃ s, raw_score raw = Some s ∧ (s < 0 ∨ 100 < s))
   ∨ (∃ t, raw_total_questions raw = Some t ∧ t < 1)
   ∨ (∃ c, raw_correct_answers raw = Some c ∧ c < 0) →
   ∃ errs, errs ≠ []
     ∧ post_api_quiz raw w = (inl (ValidationError errs), w))
  ∧ (∀ s t c, 0 ≤ s ≤ 100 → 1 ≤ t → 0 ≤ c →
       validate_score (Some s) = inr s
       ∧ validate_total_questions (Some t) = inr t
       ∧ validate_correct_answers (Some c) = inr c)
  ∧ (∀ u s t c,
       raw_user_id raw = Some u → raw_score raw = Some s →
       raw_total_questions raw = Some t → raw_correct_answers raw = Some c →
       0 ≤ s ≤ 100 → 1 ≤ t → 0 ≤ c →
       QuizIn_validate raw
       = inr {| user_id := u; score := s; total_questions := t;
                correct_answers := c;
                feedback := optional_field (raw_feedback raw) |}).
Proof.
  split_and!.
  - intros Hbad.
    assert (Herrs :
      errors_of (validate_user_id (raw_user_id raw)) ++
      errors_of (validate_score (raw_score raw)) ++
      errors_of (validate_total_questions (raw_total_questions raw)) ++
      errors_of (validate_correct_answers (raw_correct_answers raw)) ≠ []).
    { intros Hnil.
      apply app_eq_nil in Hnil as [_ Hnil].
      apply app_eq_nil in Hnil as [Hs Hnil].
      apply app_eq_nil in Hnil as [Ht Hc].
      destruct Hbad as [(s & Hraw & Hb)|[(t & Hraw & Hb)|(c & Hraw & Hb)]];
        rewrite Hraw in *.
      - unfold validate_score in Hs. destruct Hb as [Hb|Hb].
        + by rewrite int_field_below in Hs.
        + destruct (Z.lt_ge_cases s 0).
          * by rewrite int_field_below in Hs.
          * by rewrite int_field_above in Hs.
      - unfold validate_total_questions in Ht.
        by rewrite int_field_below in Ht.
      - unfold validate_correct_answers in Hc.
        by rewrite int_field_below in Hc. }
    eexists. split; [exact Herrs|].
    by apply post_api_quiz_rejects, QuizIn_validate_rejects.
  - intros s t c Hs Ht Hc. split_and!.
    + apply int_field_within; lia.
    + by apply int_field_at_least.
    + by apply int_field_at_least.
  - intros u s t c Hu Hs Ht Hc Hsb Htb Hcb. unfold QuizIn_validate.
    rewrite Hu, Hs, Ht, Hc. unfold validate_score, validate_total_questions,
      validate_correct_answers.
    rewrite int_field_within by lia.
    by rewrite !int_field_at_least by lia.
Qed.

Lemma quiz_bounds_enforced_witness :
  (∃ errs, errs ≠ []
     ∧ post_api_quiz (quiz_body "u" 101) empty_world
       = (inl (ValidationError errs), empty_world))
  ∧ QuizIn_validate (quiz_body "u" 100)
    = inr {| user_id := "u"; score := 100; total_questions := 10;
             correct_answers := 7; feedback := None |}.
Proof.
  split.
  - apply (proj1 (quiz_bounds_enforced (quiz_body "u" 101) empty_world)).
    left. exists 101. split; [reflexivity|lia].
  - apply (proj2 (proj2 (quiz_bounds_enforced (quiz_body "u" 100)
                           empty_world)) "u" 100 10 7);
      first [reflexivity | lia].
Defined.

(** ** Timestamps of a quiz submission *)

(** C8, as amended: a successful quiz submission stores one new record, last
    in the collection, whose [created_at] and [updated_at] are both set by
    the system, each from a reading of the clock of its own: [created_at]
    is the first reading of the request and [updated_at] the second.  They
    are equal exactly when the clock shows the same instant at both
    readings. *)
Theorem quiz_timestamps_two_readings raw w res w' :
  post_api_quiz raw w = (inr res, w') →
  ∃ d payload doc,
    db w = Some d
    ∧ QuizIn_validate raw = inr payload
    ∧ quizzes w' = quiz d ++ [doc]
    ∧ q_user_id doc = user_id payload
    ∧ q_score doc = Some (score payload)
    ∧ q_created_at doc = Some (clock w (reads w))
    ∧ q_updated_at doc = Some (clock w (S (reads w)))
    ∧ (q_created_at doc = q_updated_at doc
       ↔ clock w (reads w) = clock w (S (reads w))).
Proof.
  unfold post_api_quiz.
  destruct (QuizIn_validate raw) as [errs|payload] eqn:Hval; [done|].
  unfold create_quiz_result, create_document, bind, now, get_db, put_db, ret,
    raise. simpl.
  destruct (db w) as [d|] eqn:Hd; [|done].
  intros [= <- <-]. eexists d, payload, _.
  split_and!; try reflexivity.
  simpl. split; [by intros [= ->]|by intros ->].
Qed.

Lemma quiz_timestamps_two_readings_witness :
  ∃ d payload doc,
    db empty_world = Some d
    ∧ QuizIn_validate (quiz_body "u" 80) = inr payload
    ∧ quizzes (snd (post_api_quiz (quiz_body "u" 80) empty_world))
      = quiz d ++ [doc]
    ∧ q_user_id doc = user_id payload
    ∧ q_score doc = Some (score payload)
    ∧ q_created_at doc = Some 0%N
    ∧ q_updated_at doc = Some 1%N
    ∧ (q_created_at doc = q_updated_at doc ↔ 0%N = 1%N).
Proof.
  apply (quiz_timestamps_two_readings (quiz_body "u" 80) empty_world
           {| id := 0; ok := true |}
           (snd (post_api_quiz (quiz_body "u" 80) empty_world))).
  reflexivity.
Defined.

(** C8 as stated fails: on a clock that advances between two readings, the
    stored record has [created_at = 0] and [updated_at = 1]. *)
Lemma quiz_timestamps_differ :
  post_api_quiz (quiz_body "u" 80) empty_world
  = (inr {| id := 0; ok := true |},
     snd (post_api_quiz (quiz_body "u" 80) empty_world))
  ∧ quizzes (snd (post_api_quiz (quiz_body "u" 80) empty_world))
    = [stored_quiz "u" 80 0 1]
  ∧ q_created_at (stored_quiz "u" 80 0 1)
    ≠ q_updated_at (stored_quiz "u" 80 0 1).
Proof. split_and!; [reflexivity|reflexivity|discriminate]. Qed.

(** ** The [user_id] of a submission *)

Lemma ResumeIn_validate_missing_user_id raw :
  raw_resume_user_id raw = None →
  ∃ errs, ResumeIn_validate raw = inl errs
    ∧ ([Key "user_id"], Missing) ∈ errs.
Proof.
  intros Hu. unfold ResumeIn_validate. rewrite Hu. simpl str_field.
  destruct (list_field ResumeExperience_validate _ _),
    (list_field ResumeEducation_validate _ _),
    (list_field ResumeProject_validate _ _);
    cbv zeta iota; (eexists; split; [reflexivity|]); simpl; left.
Qed.

(** C7, as amended: [user_id] is required.  A quiz or resume submission
    without a [user_id] fails with a [ValidationError] that reports the
    field as missing, and nothing is stored; a [user_id] that is present
    passes whatever the string is, the empty string included. *)
Theorem user_id_required rawq rawr w :
  (raw_user_id rawq = None →
   ∃ errs, post_api_quiz rawq w = (inl (ValidationError errs), w)
     ∧ ([Key "user_id"], Missing) ∈ errs)
  ∧ (raw_resume_user_id rawr = None →
     ∃ errs, post_api_resume rawr w = (inl (ValidationError errs), w)
       ∧ ([Key "user_id"], Missing) ∈ errs)
  ∧ ∀ s, validate_user_id (Some s) = inr s.
Proof.
  split_and!.
  - intros Hu.
    assert (Hne :
      errors_of (validate_user_id (raw_user_id rawq)) ++
      errors_of (validate_score (raw_score rawq)) ++
      errors_of (validate_total_questions (raw_total_questions rawq)) ++
      errors_of (validate_correct_answers (raw_correct_answers rawq)) ≠ [])
      by (by rewrite Hu).
    eexists. split.
    + by apply post_api_quiz_rejects, QuizIn_validate_rejects.
    + rewrite Hu. simpl. left.
  - intros Hu.
    destruct (ResumeIn_validate_missing_user_id _ Hu) as (errs & Hv & Hin).
    exists errs. split; [|done]. unfold post_api_resume. by rewrite Hv.
  - done.
Qed.

Lemma user_id_required_witness :
  (∃ errs, post_api_quiz (mkRawQuiz None (Some 80) (Some 10) (Some 7) None)
             empty_world
           = (inl (ValidationError errs), empty_world)
     ∧ ([Key "user_id"], Missing) ∈ errs)
  ∧ (∃ errs, post_api_resume
               (mkRawResume None None None None None None None None None)
               empty_world
             = (inl (ValidationError errs), empty_world)
       ∧ ([Key "user_id"], Missing) ∈ errs).
Proof.
  split.
  - apply (proj1 (user_id_required
                    (mkRawQuiz None (Some 80) (Some 10) (Some 7) None)
                    (mkRawResume None None None None None None None None
                       None)
                    empty_world)).
    reflexivity.
  - apply (proj1 (proj2 (user_id_required
                    (mkRawQuiz None (Some 80) (Some 10) (Some 7) None)
                    (mkRawResume None None None None None None None None
                       None)
                    empty_world))).
    reflexivity.
Defined.

(** C7 as stated fails: a quiz submission and a resume submission with the
    empty string as [user_id] are both valid, and both are stored. *)
Lemma empty_user_id_accepted :
  QuizIn_validate (quiz_body "" 80)
  = inr {| user_id := ""; score := 80; total_questions := 10;
           correct_answers := 7; feedback := None |}
  ∧ quizzes (snd (post_api_quiz (quiz_body "" 80) empty_world))
    = [stored_quiz "" 80 0 1]
  ∧ ResumeIn_validate
      (mkRawResume (Some "") None None None None None None None None)
    = inr {| resume_user_id := ""; email := None; linkedin := None;
             twitter := None; summary := None; skills := [];
             experiences := []; education := []; projects := [] |}
  ∧ fst (post_api_resume
           (mkRawResume (Some "") None None None None None None None None)
           empty_world)
    = inr {| resume_ok := true |}
  ∧ length (resumes (snd (post_api_resume
             (mkRawResume (Some "") None None None None None None None None)
             empty_world))) = 1%nat.
Proof. split_and!; reflexivity. Qed.

(** ** Resume upsert *)

(** The [$set] document of an upsert: the dumped payload with [updated_at]
    and [created_at]. *)
Lemma model_dump_lookup payload k :
  k ∈ ResumeIn_fields → is_Some (model_dump payload !! k).
Proof.
  unfold ResumeIn_fields. intros Hk.
  repeat (apply elem_of_cons in Hk as [->|Hk]; [by eexists|]).
  by apply elem_of_nil in Hk.
Qed.

Lemma model_dump_user_id payload :
  model_dump payload !! "user_id" = Some (VStr (resume_user_id payload)).
Proof. reflexivity. Qed.

Lemma model_dump_scalars payload :
  model_dump payload !! "email" = Some (dump_str (email payload))
  ∧ model_dump payload !! "linkedin" = Some (dump_str (linkedin payload))
  ∧ model_dump payload !! "twitter" = Some (dump_str (twitter payload))
  ∧ model_dump payload !! "summary" = Some (dump_str (summary payload)).
Proof. split_and!; reflexivity. Qed.

Lemma model_dump_lists payload :
  model_dump payload !! "skills" = Some (VList (map VStr (skills payload)))
  ∧ model_dump payload !! "experiences"
    = Some (VList (map dump_experience (experiences payload)))
  ∧ model_dump payload !! "education"
    = Some (VList (map dump_education (education payload)))
  ∧ model_dump payload !! "projects"
    = Some (VList (map dump_project (projects payload))).
Proof. split_and!; reflexivity. Qed.

Lemma ResumeIn_fields_elem k : In k ResumeIn_fields → k ∈ ResumeIn_fields.
Proof. apply list_elem_of_In. Qed.

Lemma model_dump_no_timestamps payload :
  model_dump payload !! "created_at" = None
  ∧ model_dump payload !! "updated_at" = None.
Proof. split; reflexivity. Qed.

Lemma payload_dict_setdefault payload updated created :
  setdefault "created_at" (VDate created)
    (<["updated_at" := VDate updated]> (model_dump payload))
  = <["created_at" := VDate created]>
      (<["updated_at" := VDate updated]> (model_dump payload)).
Proof.
  unfold setdefault. rewrite lookup_insert_ne by done.
  by rewrite (proj1 (model_dump_no_timestamps payload)).
Qed.

Lemma upsert_resume_run payload w d :
  db w = Some d →
  upsert_resume payload w
  = (inr {| resume_ok := true |},
     {| db := Some
          {| quiz := quiz d;
             resume :=
               update_one (resume_user_id payload)
                 (<["created_at" := VDate (clock w (S (reads w)))]>
                    (<["updated_at" := VDate (clock w (reads w))]>
                       (model_dump payload)))
                 (resume d) |};
        clock := clock w;
        reads := S (S (reads w)) |}).
Proof.
  intros Hd. unfold upsert_resume, bind, get_db, now, put_db, ret. simpl.
  rewrite Hd. simpl. by rewrite payload_dict_setdefault.
Qed.

Lemma matches_set uid fields d :
  fields !! "user_id" = Some (VStr uid) → matches uid (fields ∪ d) = true.
Proof.
  intros Hu. unfold matches.
  rewrite (lookup_union_Some_l _ _ _ _ Hu). simpl. apply String.eqb_refl.
Qed.

(** What an upsert does to the documents of its user. *)
Lemma filter_matches_update_one uid fields coll :
  fields !! "user_id" = Some (VStr uid) →
  filter (λ d, matches uid d = true) (update_one uid fields coll)
  = match filter (λ d, matches uid d = true) coll with
    | [] => [fields ∪ {["user_id" := VStr uid]}]
    | d :: rest => (fields ∪ d) :: rest
    end.
Proof.
  intros Hu. induction coll as [|d coll IH]; simpl.
  - by rewrite filter_cons_True by by apply matches_set.
  - destruct (matches uid d) eqn:Hd.
    + rewrite (filter_cons_True _ d) by done.
      by rewrite filter_cons_True by by apply matches_set.
    + rewrite !(filter_cons_False _ d) by by rewrite Hd.
      exact IH.
Qed.

(** The documents of other users stay as they are. *)
Lemma filter_not_matches_update_one uid fields coll :
  fields !! "user_id" = Some (VStr uid) →
  filter (λ d, matches uid d ≠ true) (update_one uid fields coll)
  = filter (λ d, matches uid d ≠ true) coll.
Proof.
  intros Hu. induction coll as [|d coll IH]; simpl.
  - rewrite filter_cons_False; [done|].
    intros Hn. by apply Hn, matches_set.
  - destruct (matches uid d) eqn:Hd.
    + rewrite (filter_cons_False _ d) by (intros Hn; by apply Hn).
      rewrite filter_cons_False; [done|].
      intros Hn. by apply Hn, matches_set.
    + rewrite !(filter_cons_True _ d) by by rewrite Hd.
      by rewrite IH.
Qed.

Lemma not_matches_set uid uid' fields d :
  fields !! "user_id" = Some (VStr uid) → uid' ≠ uid →
  matches uid' (fields ∪ d) = false.
Proof.
  intros Hu Hne. unfold matches.
  rewrite (lookup_union_Some_l _ _ _ _ Hu). simpl.
  apply String.eqb_neq. congruence.
Qed.

(** An upsert adds no document to those of another user. *)
Lemma filter_other_update_one uid uid' fields coll :
  fields !! "user_id" = Some (VStr uid) → uid' ≠ uid →
  (length (filter (λ d, matches uid' d = true) (update_one uid fields coll))
   ≤ length (filter (λ d, matches uid' d = true) coll))%nat.
Proof.
  intros Hu Hne. induction coll as [|d coll IH]; simpl.
  - rewrite filter_cons_False; [done|].
    by rewrite (not_matches_set uid).
  - destruct (matches uid d) eqn:Hd.
    + rewrite (filter_cons_False _ (fields ∪ d))
        by (by rewrite (not_matches_set uid)).
      destruct (decide (matches uid' d = true)).
      * rewrite (filter_cons_True _ d) by done. simpl. lia.
      * by rewrite (filter_cons_False _ d) by done.
    + destruct (decide (matches uid' d = true)).
      * rewrite !(filter_cons_True _ d) by done. simpl. lia.
      * by rewrite !(filter_cons_False _ d) by done.
Qed.

(** Upserts keep [user_id] an identity of the collection. *)
Lemma update_one_unique uid fields coll :
  fields !! "user_id" = Some (VStr uid) →
  unique_user_ids coll → unique_user_ids (update_one uid fields coll).
Proof.
  intros Hu Huniq uid'. destruct (decide (uid' = uid)) as [->|Hne].
  - rewrite filter_matches_update_one by done.
    specialize (Huniq uid).
    destruct (filter _ coll) as [|d0 rest]; simpl in *; lia.
  - etrans; [by apply filter_other_update_one|]. apply Huniq.
Qed.

Lemma payload_dict_user_id payload updated created :
  <["created_at" := created]>
    (<["updated_at" := updated]> (model_dump payload)) !! "user_id"
  = Some (VStr (resume_user_id payload)).
Proof. by rewrite !lookup_insert_ne by done. Qed.

Lemma payload_dict_field payload updated created k :
  k ∈ ResumeIn_fields →
  <["created_at" := created]>
    (<["updated_at" := updated]> (model_dump payload)) !! k
  = model_dump payload !! k.
Proof.
  unfold ResumeIn_fields. intros Hk.
  repeat (apply elem_of_cons in Hk as [->|Hk];
          [by rewrite !lookup_insert_ne by done|]).
  by apply elem_of_nil in Hk.
Qed.

(** C1, what the code does: after an upsert, whatever the store held for the
    user, the user's document has the timestamps of this write.
    [updated_at] is the first reading of the clock, as the claim says; but
    [created_at] is the second reading of this same write, also when the
    user already had a stored document: [setdefault] looks for
    ["created_at"] in the dumped payload, which never has that key, and
    [$set] then writes the new value over the stored one. *)
Theorem upsert_resume_overwrites_created_at payload w d :
  db w = Some d →
  ∃ w' stored,
    upsert_resume payload w = (inr {| resume_ok := true |}, w')
    ∧ find_one (resume_user_id payload) (resumes w') = Some stored
    ∧ stored !! "updated_at" = Some (VDate (clock w (reads w)))
    ∧ stored !! "created_at" = Some (VDate (clock w (S (reads w)))).
Proof.
  intros Hd.
  set (uid := resume_user_id payload).
  eexists _, (_ ∪ default {["user_id" := VStr uid]}
                    (find_one uid (resume d))).
  split; [by apply upsert_resume_run|].
  unfold resumes, find_one. simpl.
  rewrite filter_matches_update_one by apply payload_dict_user_id.
  split_and!.
  - by destruct (filter _ (resume d)).
  - apply lookup_union_Some_l.
    rewrite lookup_insert_ne by done. apply lookup_insert_eq.
  - apply lookup_union_Some_l, lookup_insert_eq.
Qed.

Lemma upsert_resume_unique payload w d :
  db w = Some d → unique_user_ids (resume d) →
  unique_user_ids (resumes (snd (upsert_resume payload w))).
Proof.
  intros Hd Huniq. rewrite (upsert_resume_run _ _ _ Hd).
  unfold resumes. simpl.
  apply update_one_unique; [apply payload_dict_user_id|done].
Qed.

(** C1, at the failing input: user ["u"] is written twice.  The first write
    stores [created_at = 1]; after the second write the stored [created_at]
    is 3, the time of the second write. *)
Lemma upsert_resume_overwrites_created_at_witness :
  (∃ first, find_one "u" (resumes after_first_resume) = Some first
     ∧ first !! "created_at" = Some (VDate 1))
  ∧ ∃ w' stored,
      upsert_resume second_resume after_first_resume
      = (inr {| resume_ok := true |}, w')
      ∧ find_one "u" (resumes w') = Some stored
      ∧ stored !! "updated_at" = Some (VDate 2)
      ∧ stored !! "created_at" = Some (VDate 3).
Proof.
  split.
  - eexists. split; reflexivity.
  - apply (upsert_resume_overwrites_created_at second_resume
             after_first_resume
             {| quiz := quizzes after_first_resume;
                resume := resumes after_first_resume |}).
    reflexivity.
Defined.

Lemma ResumeIn_validate_defaults raw payload :
  ResumeIn_validate raw = inr payload →
  email payload = optional_field (raw_email raw)
  ∧ linkedin payload = optional_field (raw_linkedin raw)
  ∧ twitter payload = optional_field (raw_twitter raw)
  ∧ summary payload = optional_field (raw_summary raw)
  ∧ skills payload = default [] (raw_skills raw)
  ∧ (raw_experiences raw = None → experiences payload = [])
  ∧ (raw_education raw = None → education payload = [])
  ∧ (raw_projects raw = None → projects payload = []).
Proof.
  unfold ResumeIn_validate.
  destruct (str_field _ _) as [?|u]; [by repeat case_match|].
  destruct (list_field ResumeExperience_validate _ _) as [?|x] eqn:Hx;
    [by repeat case_match|].
  destruct (list_field ResumeEducation_validate _ _) as [?|e] eqn:He;
    [by repeat case_match|].
  destruct (list_field ResumeProject_validate _ _) as [?|p] eqn:Hp; [done|].
  intros [= <-]. simpl. split_and!; try done.
  - intros Hn. rewrite Hn in Hx. simpl in Hx. congruence.
  - intros Hn. rewrite Hn in He. simpl in He. congruence.
  - intros Hn. rewrite Hn in Hp. simpl in Hp. congruence.
Qed.

Lemma ResumeIn_validate_scalars raw payload :
  ResumeIn_validate raw = inr payload →
  raw_resume_user_id raw = Some (resume_user_id payload).
Proof.
  unfold ResumeIn_validate.
  destruct (str_field _ _) as [?|u] eqn:Hu; [by repeat case_match|].
  destruct (list_field ResumeExperience_validate _ _);
    [by repeat case_match|].
  destruct (list_field ResumeEducation_validate _ _);
    [by repeat case_match|].
  destruct (list_field ResumeProject_validate _ _); [done|].
  intros [= <-]. simpl. unfold str_field in Hu.
  destruct (raw_resume_user_id raw); [|done]. by injection Hu as ->.
Qed.

(** C4: two resume upserts with the same [user_id], on a store holding at
    most one document of that user, leave exactly one document of that user.
    Every field of [ResumeIn] in it holds the value of the second write: the
    body's [user_id], its scalar fields and skills, and the validated
    experiences, education entries and projects.  A field the second body
    omits is stored as its default, null for the scalar fields and the
    empty list for the list fields, whatever the first body gave. *)
Theorem upsert_twice_replaces raw1 raw2 p1 p2 w d :
  db w = Some d →
  ResumeIn_validate raw1 = inr p1 →
  ResumeIn_validate raw2 = inr p2 →
  resume_user_id p2 = resume_user_id p1 →
  (length (filter (λ x, matches (resume_user_id p1) x = true) (resume d))
   ≤ 1)%nat →
  ∃ w1 w2 stored,
    post_api_resume raw1 w = (inr {| resume_ok := true |}, w1)
    ∧ post_api_resume raw2 w1 = (inr {| resume_ok := true |}, w2)
    ∧ filter (λ x, matches (resume_user_id p1) x = true) (resumes w2)
      = [stored]
    ∧ stored !! "user_id" = VStr <$> raw_resume_user_id raw2
    ∧ stored !! "email"
      = Some (dump_str (optional_field (raw_email raw2)))
    ∧ stored !! "linkedin"
      = Some (dump_str (optional_field (raw_linkedin raw2)))
    ∧ stored !! "twitter"
      = Some (dump_str (optional_field (raw_twitter raw2)))
    ∧ stored !! "summary"
      = Some (dump_str (optional_field (raw_summary raw2)))
    ∧ stored !! "skills"
      = Some (VList (map VStr (default [] (raw_skills raw2))))
    ∧ stored !! "experiences"
      = Some (VList (map dump_experience (experiences p2)))
    ∧ stored !! "education"
      = Some (VList (map dump_education (education p2)))
    ∧ stored !! "projects"
      = Some (VList (map dump_project (projects p2)))
    ∧ (raw_email raw2 = None → stored !! "email" = Some VNone)
    ∧ (raw_linkedin raw2 = None → stored !! "linkedin" = Some VNone)
    ∧ (raw_twitter raw2 = None → stored !! "twitter" = Some VNone)
    ∧ (raw_summary raw2 = None → stored !! "summary" = Some VNone)
    ∧ (raw_skills raw2 = None → stored !! "skills" = Some (VList []))
    ∧ (raw_experiences raw2 = None →
       stored !! "experiences" = Some (VList []))
    ∧ (raw_education raw2 = None → stored !! "education" = Some (VList []))
    ∧ (raw_projects raw2 = None → stored !! "projects" = Some (VList [])).
Proof.
  intros Hd Hv1 Hv2 Huid Hone.
  set (uid := resume_user_id p1) in *.
  unfold post_api_resume. rewrite Hv1, Hv2.
  pose proof (upsert_resume_run p1 w d Hd) as Hrun1.
  set (f1 := <["created_at" := _]> (<["updated_at" := _]> (model_dump p1)))
    in Hrun1.
  set (w1 := {| db := Some _; clock := clock w; reads := S (S (reads w)) |})
    in Hrun1.
  pose proof (upsert_resume_run p2 w1 _ eq_refl) as Hrun2.
  set (f2 := <["created_at" := _]> (<["updated_at" := _]> (model_dump p2)))
    in Hrun2.
  assert (Hf1 : f1 !! "user_id" = Some (VStr uid))
    by apply payload_dict_user_id.
  assert (Hf2 : f2 !! "user_id" = Some (VStr uid)).
  { unfold f2. rewrite payload_dict_user_id. by rewrite Huid. }
  assert (Hfield : ∀ rest k, k ∈ ResumeIn_fields →
            (f2 ∪ rest) !! k = model_dump p2 !! k).
  { intros rest k Hk. rewrite lookup_union_l'.
    - by apply payload_dict_field.
    - unfold f2. rewrite payload_dict_field by done.
      by apply model_dump_lookup. }
  destruct (ResumeIn_validate_defaults _ _ Hv2)
    as (He & Hl & Ht & Hs & Hsk & Hx & Hed & Hp).
  pose proof (ResumeIn_validate_scalars _ _ Hv2) as Hu2.
  eexists w1, _, (f2 ∪ (f1 ∪ default {["user_id" := VStr uid]}
                          (find_one uid (resume d)))).
  split; [exact Hrun1|]. split; [exact Hrun2|].
  split.
  { unfold resumes. simpl. rewrite Huid. fold uid.
    rewrite !filter_matches_update_one by done.
    unfold find_one.
    destruct (filter _ (resume d)) as [|d0 [|d1 rest]]; simpl in *;
      [done|done|lia]. }
  destruct (model_dump_scalars p2) as (Me & Ml & Mt & Ms).
  destruct (model_dump_lists p2) as (Msk & Mx & Med & Mp).
  split_and!; try intros Hnone;
    (rewrite Hfield by (apply ResumeIn_fields_elem; simpl; tauto)).
  - by rewrite model_dump_user_id, Hu2.
  - by rewrite Me, He.
  - by rewrite Ml, Hl.
  - by rewrite Mt, Ht.
  - by rewrite Ms, Hs.
  - by rewrite Msk, Hsk.
  - exact Mx.
  - exact Med.
  - exact Mp.
  - by rewrite Me, He, Hnone.
  - by rewrite Ml, Hl, Hnone.
  - by rewrite Mt, Ht, Hnone.
  - by rewrite Ms, Hs, Hnone.
  - by rewrite Msk, Hsk, Hnone.
  - by rewrite Mx, Hx.
  - by rewrite Med, Hed.
  - by rewrite Mp, Hp.
Qed.

(** C4, at two writes of user ["u"] on the empty store.  The first gives an
    e-mail address, a summary and the skill "rocq"; the second gives
    another e-mail address, two other skills, an experience, an education
    entry and a project, and no summary.  The one stored document has the
    values of the second write, and a null summary. *)
Lemma upsert_twice_replaces_witness :
  ∃ w1 w2 stored,
    post_api_resume first_resume_body empty_world
    = (inr {| resume_ok := true |}, w1)
    ∧ post_api_resume replacing_resume_body w1
      = (inr {| resume_ok := true |}, w2)
    ∧ filter (λ x, matches "u" x = true) (resumes w2) = [stored]
    ∧ stored !! "user_id" = Some (VStr "u")
    ∧ stored !! "email" = Some (VStr "new@example.org")
    ∧ stored !! "linkedin" = Some VNone
    ∧ stored !! "twitter" = Some VNone
    ∧ stored !! "summary" = Some VNone
    ∧ stored !! "skills" = Some (VList [VStr "ocaml"; VStr "coq"])
    ∧ stored !! "experiences"
      = Some (VList [VDoc [("company", VStr "ACME"); ("role", VStr "dev");
                           ("start", VStr "2020"); ("end", VStr "2022");
                           ("description", VStr "backend")]])
    ∧ stored !! "education"
      = Some (VList [VDoc [("school", VStr "MIT"); ("degree", VStr "BSc");
                           ("start", VStr "2016"); ("end", VStr "2020");
                           ("details", VNone)]])
    ∧ stored !! "projects"
      = Some (VList [VDoc [("name", VStr "sensai");
                           ("link", VStr "https://x.org");
                           ("description", VNone)]])
    ∧ (raw_email replacing_resume_body = None →
       stored !! "email" = Some VNone)
    ∧ (raw_linkedin replacing_resume_body = None →
       stored !! "linkedin" = Some VNone)
    ∧ (raw_twitter replacing_resume_body = None →
       stored !! "twitter" = Some VNone)
    ∧ (raw_summary replacing_resume_body = None →
       stored !! "summary" = Some VNone)
    ∧ (raw_skills replacing_resume_body = None →
       stored !! "skills" = Some (VList []))
    ∧ (raw_experiences replacing_resume_body = None →
       stored !! "experiences" = Some (VList []))
    ∧ (raw_education replacing_resume_body = None →
       stored !! "education" = Some (VList []))
    ∧ (raw_projects replacing_resume_body = None →
       stored !! "projects" = Some (VList [])).
Proof.
  apply (upsert_twice_replaces first_resume_body replacing_resume_body
           first_resume replacing_resume empty_world
           {| quiz := []; resume := [] |}).
  - reflexivity.
  - reflexivity.
  - reflexivity.
  - reflexivity.
  - simpl. lia.
Defined.

(** * Further properties *)

(** ** Which quiz bodies are valid *)

Lemma int_field_inr at_ ge le o z :
  int_field at_ ge le o = inr z →
  o = Some z
  ∧ (∀ lo, ge = Some lo → lo ≤ z)
  ∧ (∀ hi, le = Some hi → z ≤ hi).
Proof.
  unfold int_field. destruct o as [z'|]; [|done].
  destruct ge as [lo|], le as [hi|];
    repeat match goal with
           | |- context [?a <? ?b] => destruct (Z.ltb_spec a b)
           end;
    intros [= <-]; split_and!; try done; intros ? [= <-]; lia.
Qed.

(** X1: a body is a valid [QuizIn] exactly when [user_id], [score],
    [total_questions] and [correct_answers] are all present, [score] is
    within 0..100, [total_questions] is at least 1 and [correct_answers] is
    at least 0; the payload then carries these values, and its [feedback]
    is the body's, absent and null alike giving [None].  Nothing relates
    [correct_answers] to [total_questions]. *)
Theorem QuizIn_validate_accepts_iff raw payload :
  QuizIn_validate raw = inr payload ↔
  raw_user_id raw = Some (user_id payload)
  ∧ raw_score raw = Some (score payload)
  ∧ raw_total_questions raw = Some (total_questions payload)
  ∧ raw_correct_answers raw = Some (correct_answers payload)
  ∧ feedback payload = optional_field (raw_feedback raw)
  ∧ 0 ≤ score payload ≤ 100
  ∧ 1 ≤ total_questions payload
  ∧ 0 ≤ correct_answers payload.
Proof.
  split.
  - unfold QuizIn_validate, validate_user_id, validate_score,
      validate_total_questions, validate_correct_answers.
    destruct (str_field _ _) as [?|u] eqn:Hu; [by repeat case_match|].
    destruct (int_field _ _ (Some 100) _) as [?|s] eqn:Hs;
      [by repeat case_match|].
    destruct (int_field _ (Some 1) _ _) as [?|t] eqn:Ht;
      [by repeat case_match|].
    destruct (int_field _ (Some 0) None _) as [?|c] eqn:Hc; [done|].
    intros [= <-]. simpl.
    apply int_field_inr in Hs as (-> & Hs1 & Hs2).
    apply int_field_inr in Ht as (-> & Ht1 & _).
    apply int_field_inr in Hc as (-> & Hc1 & _).
    unfold str_field in Hu. destruct (raw_user_id raw); [|done].
    injection Hu as ->.
    specialize (Hs1 _ eq_refl). specialize (Hs2 _ eq_refl).
    specialize (Ht1 _ eq_refl). specialize (Hc1 _ eq_refl).
    split_and!; (done || lia).
  - intros (Hu & Hs & Ht & Hc & Hf & Hsb & Htb & Hcb).
    unfold QuizIn_validate, validate_user_id, validate_score,
      validate_total_questions, validate_correct_answers.
    rewrite Hu, Hs, Ht, Hc. simpl str_field.
    rewrite int_field_within by lia.
    rewrite !int_field_at_least by lia.
    rewrite <- Hf. by destruct payload.
Qed.

(** ** What a quiz submission does to the store *)

Lemma create_quiz_result_run payload w d :
  db w = Some d →
  create_quiz_result payload w
  = (inr {| id := length (quiz d); ok := true |},
     {| db := Some
          {| quiz := quiz d ++
               [{| q_user_id := user_id payload;
                   q_score := Some (score payload);
                   q_total_questions := Some (total_questions payload);
                   q_correct_answers := Some (correct_answers payload);
                   q_feedback := Some (feedback payload);
                   q_created_at := Some (clock w (reads w));
                   q_updated_at := Some (clock w (S (reads w))) |}];
             resume := resume d |};
        clock := clock w;
        reads := S (S (reads w)) |}).
Proof.
  intros Hd. unfold create_quiz_result, create_document, bind, now, get_db,
    put_db, ret. simpl. by rewrite Hd.
Qed.

Lemma quizzes_after_post raw w :
  quizzes (snd (post_api_quiz raw w)) = quizzes w
  ∨ ∃ payload doc,
      QuizIn_validate raw = inr payload
      ∧ quizzes (snd (post_api_quiz raw w)) = quizzes w ++ [doc]
      ∧ q_user_id doc = user_id payload
      ∧ q_score doc = Some (score payload).
Proof.
  unfold post_api_quiz.
  destruct (QuizIn_validate raw) as [errs|payload] eqn:Hv; [by left|].
  destruct (db w) as [d|] eqn:Hd.
  - right. exists payload. eexists.
    rewrite (create_quiz_result_run _ _ _ Hd).
    unfold quizzes. rewrite Hd. simpl. by split_and!.
  - left. unfold create_quiz_result, create_document, bind, now, get_db,
      raise, quizzes. simpl. by rewrite Hd.
Qed.

(** X2: the quiz endpoint keeps every stored score within 0..100.  If the
    scores of the collection are all within 0..100 before a submission, they
    are so after it, whether the submission is stored or rejected. *)
Theorem post_api_quiz_keeps_scores_in_range raw w :
  scores_in_range (quizzes w) →
  scores_in_range (quizzes (snd (post_api_quiz raw w))).
Proof.
  intros Hinv.
  destruct (quizzes_after_post raw w)
    as [->|(payload & doc & Hv & -> & _ & Hs)]; [done|].
  apply Forall_app. split; [done|]. constructor; [|constructor].
  intros s Hds. rewrite Hs in Hds. injection Hds as <-.
  by apply QuizIn_validate_accepts_iff in Hv as (_ & _ & _ & _ & _ & ? & _).
Qed.

Lemma post_api_quiz_keeps_scores_in_range_witness :
  scores_in_range (quizzes three_quizzes_world).
Proof.
  apply (post_api_quiz_keeps_scores_in_range (quiz_body "u" 100)
           (snd ((let* a := post_api_quiz (quiz_body "u" 80) in
                  post_api_quiz (quiz_body "u" 90)) empty_world))).
  unfold scores_in_range. simpl.
  repeat (apply Forall_cons; split; [intros s [= <-]; lia|]).
  apply Forall_nil_2.
Defined.

Lemma quiz_records_of_app uid d doc :
  quiz_records_of uid {| quiz := quiz d ++ [doc]; resume := resume d |}
  = quiz_records_of uid d ++
    (if decide (q_user_id doc = uid) then [doc] else []).
Proof.
  unfold quiz_records_of. simpl. rewrite filter_app. f_equal.
  destruct (decide (q_user_id doc = uid)) as [Hu|Hu].
  - by rewrite filter_cons_True by (by apply has_user_id_true).
  - by rewrite filter_cons_False by (by rewrite has_user_id_true).
Qed.

Lemma quiz_stats_of_count items : count (quiz_stats_of items) = length items.
Proof. by destruct items. Qed.

(** X3: a stored submission counts once, and only for its user.  After a
    valid submission on a configured store, the statistics of the
    submitting user count one record more than before, their
    [total_questions] grows by the submitted [total_questions], and the
    statistics of every other user are what they were. *)
Theorem submission_counts_once raw payload w d :
  db w = Some d →
  QuizIn_validate raw = inr payload →
  ∃ res w' before after,
    post_api_quiz raw w = (inr res, w')
    ∧ get_quiz_stats (user_id payload) w = (inr before, w)
    ∧ get_quiz_stats (user_id payload) w' = (inr after, w')
    ∧ count after = S (count before)
    ∧ stats_total_questions after
      = stats_total_questions before + total_questions payload
    ∧ ∀ other, other ≠ user_id payload →
        fst (get_quiz_stats other w') = fst (get_quiz_stats other w).
Proof.
  intros Hd Hv. unfold post_api_quiz. rewrite Hv.
  rewrite (create_quiz_result_run _ _ _ Hd).
  set (doc := {| q_user_id := user_id payload |}).
  set (w' := {| db := Some _ |}).
  exists {| id := length (quiz d); ok := true |}, w'.
  eexists _, _. split; [done|].
  split; [by apply get_quiz_stats_run|].
  split; [by apply (get_quiz_stats_run _ w' _ eq_refl)|].
  split_and!.
  - rewrite quiz_records_of_app, decide_True by done.
    rewrite !quiz_stats_of_count, length_app. simpl. lia.
  - rewrite quiz_records_of_app, decide_True by done.
    destruct (quiz_records_of (user_id payload) d) as [|x l] eqn:Hrec.
    + simpl. unfold total_questions_of. simpl. lia.
    + change ((x :: l) ++ [doc]) with (x :: (l ++ [doc])).
      rewrite !quiz_stats_of_cons. cbn [stats_total_questions].
      change (x :: (l ++ [doc])) with ((x :: l) ++ [doc]).
      rewrite map_app, sum_app. simpl.
      unfold total_questions_of at 3. simpl. lia.
  - intros other Hother.
    rewrite (get_quiz_stats_run _ w' _ eq_refl).
    rewrite (get_quiz_stats_run _ _ _ Hd). simpl.
    rewrite quiz_records_of_app. simpl.
    rewrite decide_False by done. by rewrite app_nil_r.
Qed.

Lemma submission_counts_once_witness :
  ∃ res w' before after,
    post_api_quiz (quiz_body "u" 60) three_quizzes_world = (inr res, w')
    ∧ get_quiz_stats "u" three_quizzes_world
      = (inr before, three_quizzes_world)
    ∧ get_quiz_stats "u" w' = (inr after, w')
    ∧ count after = S (count before)
    ∧ stats_total_questions after = stats_total_questions before + 10
    ∧ ∀ other, other ≠ "u" →
        fst (get_quiz_stats other w')
        = fst (get_quiz_stats other three_quizzes_world).
Proof.
  apply (submission_counts_once (quiz_body "u" 60)
           {| user_id := "u"; score := 60; total_questions := 10;
              correct_answers := 7; feedback := None |}
           three_quizzes_world three_quizzes_db);
    reflexivity.
Defined.

(** ** Statistics of scores within range *)

Lemma score_of_in_range it :
  (∀ s, q_score it = Some s → 0 ≤ s ≤ 100) → 0 ≤ score_of it ≤ 100.
Proof.
  intros H. unfold score_of. destruct (q_score it) as [s|]; simpl.
  - by apply H.
  - lia.
Qed.

Lemma sum_scores_in_range items :
  scores_in_range items →
  0 ≤ sum (map score_of items) ≤ 100 * Z.of_nat (length items).
Proof.
  induction 1 as [|it items Hit Hitems IH]; simpl; [lia|].
  pose proof (score_of_in_range _ Hit). lia.
Qed.

Lemma scores_in_range_filter P `{∀ x, Decision (P x)} items :
  scores_in_range items → scores_in_range (filter P items).
Proof.
  unfold scores_in_range. rewrite !Forall_forall.
  intros Hall it Hit%list_elem_of_filter. apply Hall, Hit.
Qed.

(** X4: when every stored score is within 0..100, so are the statistics.
    For a user with records, the mean is [round(s / n, 2)] with [n] the
    number of records and [0 ≤ s ≤ 100 n], a record without score counting
    for 0, and [latest_score] is within 0..100. *)
Theorem quiz_stats_within_range uid w d :
  db w = Some d →
  scores_in_range (quiz d) →
  quiz_records_of uid d ≠ [] →
  ∃ st s n,
    get_quiz_stats uid w = (inr st, w)
    ∧ average_score st = Round2Div s n
    ∧ n = count st
    ∧ (0 < n)%nat
    ∧ 0 ≤ s ≤ 100 * Z.of_nat n
    ∧ 0 ≤ latest_score st ≤ 100.
Proof.
  intros Hd Hrange Hne. rewrite (get_quiz_stats_run _ _ _ Hd).
  assert (Hitems : scores_in_range (quiz_records_of uid d))
    by by apply scores_in_range_filter.
  destruct (quiz_records_of uid d) as [|first rest] eqn:Hrec; [done|].
  destruct (last_largest_split created_at_key first rest)
    as (l1 & r & l2 & Heq & H1 & H2).
  eexists _, _, _. split; [done|].
  rewrite quiz_stats_of_cons. cbn [average_score count latest_score].
  split; [done|]. rewrite length_map.
  split; [done|]. split; [simpl; lia|].
  split; [by apply sum_scores_in_range|].
  rewrite Heq, sorted_last by done.
  apply score_of_in_range.
  unfold scores_in_range in Hitems. rewrite Heq, Forall_forall in Hitems.
  apply Hitems, list_elem_of_In, in_elt.
Qed.

Lemma quiz_stats_within_range_witness :
  ∃ st s n,
    get_quiz_stats "u" three_quizzes_world = (inr st, three_quizzes_world)
    ∧ average_score st = Round2Div s n
    ∧ n = count st
    ∧ (0 < n)%nat
    ∧ 0 ≤ s ≤ 100 * Z.of_nat n
    ∧ 0 ≤ latest_score st ≤ 100.
Proof.
  apply (quiz_stats_within_range "u" three_quizzes_world three_quizzes_db).
  - reflexivity.
  - unfold scores_in_range. simpl.
    repeat (apply Forall_cons; split; [intros s [= <-]; lia|]).
    apply Forall_nil_2.
  - discriminate.
Defined.

(** ** Statistics and the order of the store *)

Lemma sum_map_perm {A} (f : A → Z) l l' :
  l ≡ₚ l' → sum (map f l) = sum (map f l').
Proof. induction 1; simpl; lia. Qed.

(** With distinct keys, the element that ends [sorted] is the one of
    largest key, wherever it stands. *)
Lemma sorted_last_largest {A} (key : A → datetime) l1 r l2 d :
  Forall (λ y, (key y < key r)%N) (l1 ++ l2) →
  List.last (sorted key (l1 ++ r :: l2)) d = r.
Proof.
  intros [H1 H2]%Forall_app. apply sorted_last; [|done].
  eapply Forall_impl; [exact H1|]. simpl. intros. lia.
Qed.

Lemma largest_split_distinct {A} (key : A → datetime) x l :
  NoDup (map key (x :: l)) →
  ∃ l1 r l2, x :: l = l1 ++ r :: l2
    ∧ Forall (λ y, (key y < key r)%N) (l1 ++ l2).
Proof.
  intros Hnd.
  destruct (last_largest_split key x l) as (l1 & r & l2 & Heq & H1 & H2).
  exists l1, r, l2. split; [done|].
  rewrite Heq, map_app in Hnd. simpl in Hnd.
  apply NoDup_app in Hnd as (_ & Hdisj & _).
  apply Forall_app. split; [|done].
  rewrite Forall_forall in H1 |- *. intros y Hy.
  specialize (H1 y Hy).
  assert (key y ≠ key r); [|lia].
  intros Heqk. apply (Hdisj (key y)).
  - apply list_elem_of_fmap. by exists y.
  - rewrite Heqk. left.
Qed.

(** X5: the statistics do not depend on the order in which the store
    returns a user's records, as long as no two of them share their
    [created_at].  The mean, [total_questions] and [count] are the same for
    any two orders even then. *)
Theorem quiz_stats_of_permutation items items' :
  items ≡ₚ items' →
  average_score (quiz_stats_of items) = average_score (quiz_stats_of items')
  ∧ stats_total_questions (quiz_stats_of items)
    = stats_total_questions (quiz_stats_of items')
  ∧ count (quiz_stats_of items) = count (quiz_stats_of items')
  ∧ (NoDup (map created_at_key items) →
     quiz_stats_of items = quiz_stats_of items').
Proof.
  intros Hp.
  destruct items as [|x l].
  { apply Permutation_nil_l in Hp as ->. by split_and!; [..|intros _]. }
  destruct items' as [|x' l'].
  { by apply Permutation_nil_r in Hp. }
  rewrite !quiz_stats_of_cons.
  cbn [average_score stats_total_questions count].
  rewrite !length_map.
  rewrite (sum_map_perm score_of _ _ Hp).
  rewrite (sum_map_perm total_questions_of _ _ Hp).
  rewrite (Permutation_length Hp).
  split_and!; try done.
  intros Hnd. f_equal. f_equal.
  destruct (largest_split_distinct created_at_key x l Hnd)
    as (l1 & r & l2 & Heq & Hlt).
  assert (Hr : r ∈ x' :: l').
  { rewrite <- Hp, Heq. apply list_elem_of_In, in_elt. }
  apply list_elem_of_split in Hr as (l1' & l2' & Heq').
  rewrite Heq, Heq' in Hp.
  apply Permutation_app_inv in Hp.
  rewrite Heq, Heq'. rewrite !sorted_last_largest; [done| |done].
  by rewrite <- Hp.
Qed.

Lemma quiz_stats_of_permutation_witness :
  quiz_stats_of (quiz three_quizzes_db)
  = quiz_stats_of (rev (quiz three_quizzes_db)).
Proof.
  apply (quiz_stats_of_permutation (quiz three_quizzes_db)
           (rev (quiz three_quizzes_db))).
  - apply Permutation_rev.
  - apply (bool_decide_unpack _). reflexivity.
Defined.

(** ** Ties in the recent list *)

Section Stability.
Context {A : Type} (key : A → datetime).

Lemma filter_key_insert_by k x s :
  filter (λ y, key y = k) (insert_by key x s)
  = filter (λ y, key y = k) (x :: s).
Proof.
  induction s as [|y s IH]; simpl; [done|].
  destruct (N.leb_spec (key x) (key y)) as [Hle|Hgt]; [done|].
  destruct (decide (key y = k)) as [Hy|Hy].
  - rewrite (filter_cons_True _ y) by done. rewrite IH.
    rewrite (filter_cons_False _ x) by lia.
    rewrite (filter_cons_False _ x) by lia.
    by rewrite (filter_cons_True _ y) by done.
  - rewrite (filter_cons_False _ y) by done. rewrite IH.
    destruct (decide (key x = k)) as [Hx|Hx].
    + rewrite !(filter_cons_True _ x) by done.
      by rewrite (filter_cons_False _ y) by done.
    + rewrite !(filter_cons_False _ x) by done.
      by rewrite (filter_cons_False _ y) by done.
Qed.

(** Sorting keeps the elements of one key in the order they had. *)
Lemma filter_key_sorted k l :
  filter (λ y, key y = k) (sorted key l) = filter (λ y, key y = k) l.
Proof.
  induction l as [|x l IH]; simpl; [done|].
  rewrite filter_key_insert_by.
  destruct (decide (key x = k)).
  - rewrite !(filter_cons_True _ x) by done. by rewrite IH.
  - rewrite !(filter_cons_False _ x) by done. by rewrite IH.
Qed.

Lemma filter_rev (P : A → Prop) `{∀ x, Decision (P x)} l :
  filter P (rev l) = rev (filter P l).
Proof.
  induction l as [|x l IH]; simpl; [done|].
  rewrite filter_app, IH. destruct (decide (P x)).
  - rewrite (filter_cons_True _ x) by done.
    by rewrite (filter_cons_True _ x) by done.
  - rewrite (filter_cons_False _ x) by done.
    rewrite (filter_cons_False _ x) by done.
    by rewrite app_nil_r.
Qed.

Lemma filter_key_sorted_reverse k l :
  filter (λ y, key y = k) (sorted_reverse key l)
  = filter (λ y, key y = k) l.
Proof.
  unfold sorted_reverse.
  by rewrite filter_rev, filter_key_sorted, filter_rev, rev_involutive.
Qed.

(** With distinct keys, the first element of [sorted_reverse] is the one of
    largest key. *)
Lemma sorted_reverse_head l1 r l2 :
  Forall (λ y, (key y < key r)%N) (l1 ++ l2) →
  head (sorted_reverse key (l1 ++ r :: l2)) = Some r.
Proof.
  intros [H1 H2]%Forall_app. unfold sorted_reverse.
  rewrite rev_app_distr. simpl. rewrite <- app_assoc. simpl.
  destruct (sorted_ends_with key (rev l2) r (rev l1)) as [s ->].
  - rewrite Forall_forall in H2 |- *. intros y Hy.
    apply list_elem_of_In, in_rev, list_elem_of_In, H2 in Hy. lia.
  - rewrite Forall_forall in H1 |- *. intros y Hy.
    by apply list_elem_of_In, in_rev, list_elem_of_In, H1 in Hy.
  - by rewrite rev_app_distr.
Qed.
End Stability.

(** X6: the recent list keeps records created at the same instant in the
    order the store returned them; sorting newest first never swaps two
    records with equal [created_at]. *)
Theorem recent_quizzes_keep_ties_in_store_order uid limit w d t :
  db w = Some d →
  ∃ items,
    get_recent_quizzes uid limit w = (inr items, w)
    ∧ created_at_exactly t items
      = created_at_exactly t
          (take (Z.to_nat limit) (quiz_records_of uid d)).
Proof.
  intros Hd. eexists. split; [by apply get_recent_quizzes_run|].
  apply filter_key_sorted_reverse.
Qed.

Lemma recent_quizzes_keep_ties_in_store_order_witness :
  ∃ items,
    get_recent_quizzes "u" 5 bare_world = (inr items, bare_world)
    ∧ created_at_exactly 0 items
      = created_at_exactly 0 (take 5 (quiz_records_of "u" bare_db)).
Proof.
  apply (recent_quizzes_keep_ties_in_store_order "u" 5 bare_world bare_db 0).
  reflexivity.
Defined.

(** X7: the two read endpoints agree on the latest record when no two
    records of the user share their [created_at] and the limit covers all of
    them: the recent list then starts with the record whose score the
    statistics report as [latest_score]. *)
Theorem recent_head_is_latest uid limit w d :
  db w = Some d →
  quiz_records_of uid d ≠ [] →
  NoDup (map created_at_key (quiz_records_of uid d)) →
  Z.of_nat (length (quiz_records_of uid d)) ≤ limit →
  ∃ st newest rest,
    get_quiz_stats uid w = (inr st, w)
    ∧ get_recent_quizzes uid limit w = (inr (newest :: rest), w)
    ∧ latest_score st = score_of newest.
Proof.
  intros Hd Hne Hnd Hlimit.
  rewrite (get_quiz_stats_run _ _ _ Hd).
  rewrite (get_recent_quizzes_run _ _ _ _ Hd).
  rewrite take_ge by lia.
  destruct (quiz_records_of uid d) as [|x l] eqn:Hrec; [done|].
  destruct (largest_split_distinct created_at_key x l Hnd)
    as (l1 & r & l2 & Heq & Hlt).
  pose proof (sorted_reverse_head created_at_key l1 r l2 Hlt) as Hhead.
  rewrite <- Heq in Hhead.
  destruct (sorted_reverse created_at_key (x :: l)) as [|newest rest];
    [done|].
  injection Hhead as ->.
  eexists _, r, rest. split_and!; try done.
  rewrite quiz_stats_of_cons. cbn [latest_score].
  by rewrite Heq, sorted_last_largest.
Qed.

Lemma recent_head_is_latest_witness :
  ∃ st newest rest,
    get_quiz_stats "u" three_quizzes_world = (inr st, three_quizzes_world)
    ∧ get_recent_quizzes "u" 3 three_quizzes_world
      = (inr (newest :: rest), three_quizzes_world)
    ∧ latest_score st = score_of newest.
Proof.
  apply (recent_head_is_latest "u" 3 three_quizzes_world three_quizzes_db).
  - reflexivity.
  - discriminate.
  - apply (bool_decide_unpack _). reflexivity.
  - simpl. lia.
Defined.

(** ** The resume endpoints without a store *)

(** X8: without a configured store both resume endpoints answer with the
    HTTP error 500 "Database not configured" and change nothing, not even
    the clock is read.  The body is validated before the store is looked
    at: an invalid body gets its [ValidationError] also then. *)
Theorem resume_endpoints_not_configured raw uid w :
  db w = None →
  get_resume uid w
  = (inl (HTTPException 500 "Database not configured"), w)
  ∧ (∀ payload, ResumeIn_validate raw = inr payload →
       post_api_resume raw w
       = (inl (HTTPException 500 "Database not configured"), w))
  ∧ (∀ errs, ResumeIn_validate raw = inl errs →
       post_api_resume raw w = (inl (ValidationError errs), w)).
Proof.
  intros Hd. split_and!.
  - unfold get_resume, bind, get_db, raise. by rewrite Hd.
  - intros payload Hv. unfold post_api_resume. rewrite Hv.
    unfold upsert_resume, bind, get_db, raise. by rewrite Hd.
  - intros errs Hv. unfold post_api_resume. by rewrite Hv.
Qed.

Lemma resume_endpoints_not_configured_witness :
  get_resume "u" {| db := None; clock := λ n, N.of_nat n; reads := 0 |}
  = (inl (HTTPException 500 "Database not configured"),
     {| db := None; clock := λ n, N.of_nat n; reads := 0 |}).
Proof.
  apply (resume_endpoints_not_configured second_resume_body "u"
           {| db := None; clock := λ n, N.of_nat n; reads := 0 |}).
  reflexivity.
Defined.

(** ** What an upsert leaves alone *)

Lemma length_update_one uid fields coll :
  length (update_one uid fields coll)
  = (length coll
     + match find_one uid coll with Some _ => 0 | None => 1 end)%nat.
Proof.
  unfold find_one. induction coll as [|d coll IH]; simpl; [done|].
  destruct (matches uid d) eqn:Hd.
  - rewrite (filter_cons_True _ d) by done. simpl. lia.
  - rewrite (filter_cons_False _ d) by (by rewrite Hd). simpl.
    rewrite IH. lia.
Qed.

(** X9: an upsert touches one document only.  It leaves the quiz collection
    and the documents of all other users as they were, and the resume
    collection grows by one document when the user had none and keeps its
    size otherwise. *)
Theorem upsert_resume_frame payload w d :
  db w = Some d →
  ∃ w',
    upsert_resume payload w = (inr {| resume_ok := true |}, w')
    ∧ quizzes w' = quiz d
    ∧ filter (λ x, matches (resume_user_id payload) x ≠ true) (resumes w')
      = filter (λ x, matches (resume_user_id payload) x ≠ true) (resume d)
    ∧ length (resumes w')
      = (length (resume d)
         + match find_one (resume_user_id payload) (resume d) with
           | Some _ => 0
           | None => 1
           end)%nat.
Proof.
  intros Hd. eexists. split; [by apply upsert_resume_run|].
  unfold quizzes, resumes. simpl. split_and!.
  - done.
  - apply filter_not_matches_update_one, payload_dict_user_id.
  - apply length_update_one.
Qed.

Lemma upsert_resume_frame_witness :
  ∃ w',
    upsert_resume second_resume after_first_resume
    = (inr {| resume_ok := true |}, w')
    ∧ quizzes w' = []
    ∧ filter (λ x, matches "u" x ≠ true) (resumes w')
      = filter (λ x, matches "u" x ≠ true) (resumes after_first_resume)
    ∧ length (resumes w')
      = (length (resumes after_first_resume)
         + match find_one "u" (resumes after_first_resume) with
           | Some _ => 0
           | None => 1
           end)%nat.
Proof.
  apply (upsert_resume_frame second_resume after_first_resume
           {| quiz := []; resume := resumes after_first_resume |}).
  reflexivity.
Defined.

Lemma model_dump_keys payload k :
  k ∉ ResumeIn_fields → model_dump payload !! k = None.
Proof.
  intros Hk. unfold model_dump. apply not_elem_of_list_to_map_1.
  exact Hk.
Qed.

Lemma payload_dict_keys payload updated created k :
  k ∉ upsert_keys →
  <["created_at" := created]>
    (<["updated_at" := updated]> (model_dump payload)) !! k = None.
Proof.
  unfold upsert_keys. intros Hk.
  apply not_elem_of_app in Hk as [Hfields Hts].
  apply not_elem_of_cons in Hts as [Hu Hts].
  apply not_elem_of_cons in Hts as [Hc _].
  rewrite !lookup_insert_ne by done. by apply model_dump_keys.
Qed.

Lemma find_one_update_one uid fields coll :
  fields !! "user_id" = Some (VStr uid) →
  find_one uid (update_one uid fields coll)
  = Some (fields ∪ default {["user_id" := VStr uid]} (find_one uid coll)).
Proof.
  intros Hu. unfold find_one.
  rewrite filter_matches_update_one by done.
  by destruct (filter _ coll).
Qed.

(** X10: an upsert merges, it does not replace the document.  A key of the
    user's stored document that is neither a field of [ResumeIn] nor one of
    the two timestamps, such as the store's ["_id"] or a key written by
    another producer, keeps its value through an upsert. *)
Theorem upsert_resume_keeps_foreign_keys payload w d old k :
  db w = Some d →
  find_one (resume_user_id payload) (resume d) = Some old →
  k ∉ upsert_keys →
  ∃ w' stored,
    upsert_resume payload w = (inr {| resume_ok := true |}, w')
    ∧ find_one (resume_user_id payload) (resumes w') = Some stored
    ∧ stored !! k = old !! k.
Proof.
  intros Hd Hold Hk. eexists _, _.
  split; [by apply upsert_resume_run|].
  unfold resumes. simpl.
  rewrite find_one_update_one by apply payload_dict_user_id.
  split; [done|]. rewrite Hold. simpl.
  rewrite lookup_union_r; [done|]. by apply payload_dict_keys.
Qed.

Lemma upsert_resume_keeps_foreign_keys_witness :
  ∃ w' stored,
    upsert_resume second_resume legacy_world
    = (inr {| resume_ok := true |}, w')
    ∧ find_one "u" (resumes w') = Some stored
    ∧ stored !! "legacy" = legacy_resume !! "legacy".
Proof.
  apply (upsert_resume_keeps_foreign_keys second_resume legacy_world
           legacy_db legacy_resume "legacy").
  - reflexivity.
  - reflexivity.
  - apply (bool_decide_unpack _). reflexivity.
Defined.

(** ** [user_id] stays an identity *)

Lemma post_api_resume_db raw w d :
  db w = Some d →
  ∃ d', db (snd (post_api_resume raw w)) = Some d'
    ∧ (unique_user_ids (resume d) → unique_user_ids (resume d')).
Proof.
  intros Hd. unfold post_api_resume.
  destruct (ResumeIn_validate raw) as [errs|payload]; [by exists d|].
  rewrite (upsert_resume_run _ _ _ Hd). simpl. eexists. split; [done|].
  simpl. intros Huniq.
  apply update_one_unique; [apply payload_dict_user_id|done].
Qed.

(** X11: whatever requests [POST /api/resume] receives, valid or not, and
    for whichever users, a resume collection that has at most one document
    per user keeps at most one document per user; so does the collection
    built from the empty store. *)
Theorem resume_posts_keep_user_id_unique bodies w d :
  db w = Some d →
  unique_user_ids (resume d) →
  unique_user_ids (resumes (after_resume_posts bodies w)).
Proof.
  revert w d. induction bodies as [|raw bodies IH]; intros w d Hd Huniq.
  - unfold resumes. simpl. by rewrite Hd.
  - simpl. destruct (post_api_resume_db raw w d Hd) as (d' & Hd' & Hu).
    apply (IH _ d'); [done|by apply Hu].
Qed.

Lemma resume_posts_keep_user_id_unique_witness :
  unique_user_ids
    (resumes (after_resume_posts
                [first_resume_body; second_resume_body; first_resume_body]
                empty_world)).
Proof.
  apply (resume_posts_keep_user_id_unique
           [first_resume_body; second_resume_body; first_resume_body]
           empty_world {| quiz := []; resume := [] |}).
  - reflexivity.
  - intros uid. simpl. lia.
Defined.

(** ** Reading back a resume *)

Lemma get_resume_run uid w d :
  db w = Some d →
  get_resume uid w
  = (inr (default ∅ (find_one_without_id uid (resume d))), w).
Proof.
  intros Hd. unfold get_resume, bind, get_db, ret. rewrite Hd.
  destruct (find_one_without_id uid (resume d)) as [doc|]; [|done].
  simpl. by destruct (decide (doc = ∅)) as [->|].
Qed.

(** X12: what was written is what is read.  After an upsert on a configured
    store, whatever it held, [GET /api/resume] for the payload's user
    returns a document in which every field of [ResumeIn] holds the
    payload's value: the [user_id], the scalar fields with null for an
    absent one, the skills, and the experiences, education entries and
    projects in the payload's order. *)
Theorem get_resume_after_upsert payload w d :
  db w = Some d →
  ∃ w' doc,
    upsert_resume payload w = (inr {| resume_ok := true |}, w')
    ∧ get_resume (resume_user_id payload) w' = (inr doc, w')
    ∧ doc !! "user_id" = Some (VStr (resume_user_id payload))
    ∧ doc !! "email" = Some (dump_str (email payload))
    ∧ doc !! "linkedin" = Some (dump_str (linkedin payload))
    ∧ doc !! "twitter" = Some (dump_str (twitter payload))
    ∧ doc !! "summary" = Some (dump_str (summary payload))
    ∧ doc !! "skills" = Some (VList (map VStr (skills payload)))
    ∧ doc !! "experiences"
      = Some (VList (map dump_experience (experiences payload)))
    ∧ doc !! "education"
      = Some (VList (map dump_education (education payload)))
    ∧ doc !! "projects"
      = Some (VList (map dump_project (projects payload))).
Proof.
  intros Hd. eexists _, _.
  split; [by apply upsert_resume_run|].
  split; [by apply get_resume_run|].
  simpl. unfold find_one_without_id.
  rewrite find_one_update_one by apply payload_dict_user_id.
  simpl.
  assert (Hfield : ∀ k v, k ≠ "_id" → k ∈ ResumeIn_fields →
            model_dump payload !! k = Some v →
            delete "_id"
              (<["created_at" := VDate (clock w (S (reads w)))]>
                 (<["updated_at" := VDate (clock w (reads w))]>
                    (model_dump payload))
               ∪ default {["user_id" := VStr (resume_user_id payload)]}
                   (find_one (resume_user_id payload) (resume d))) !! k
            = Some v).
  { intros k v Hid Hk Hv. rewrite lookup_delete_ne by done.
    apply lookup_union_Some_l. by rewrite payload_dict_field. }
  destruct (model_dump_scalars payload) as (Me & Ml & Mt & Ms).
  destruct (model_dump_lists payload) as (Msk & Mx & Med & Mp).
  split_and!;
    (apply Hfield;
     [done|apply ResumeIn_fields_elem; simpl; tauto|done]).
Qed.

(** X12, at the store that already holds the first resume of ["u"]: after
    the second write, reading ["u"] gives the values of the second write. *)
Lemma get_resume_after_upsert_witness :
  ∃ w' doc,
    upsert_resume replacing_resume after_first_resume
    = (inr {| resume_ok := true |}, w')
    ∧ get_resume "u" w' = (inr doc, w')
    ∧ doc !! "user_id" = Some (VStr "u")
    ∧ doc !! "email" = Some (VStr "new@example.org")
    ∧ doc !! "linkedin" = Some VNone
    ∧ doc !! "twitter" = Some VNone
    ∧ doc !! "summary" = Some VNone
    ∧ doc !! "skills" = Some (VList [VStr "ocaml"; VStr "coq"])
    ∧ doc !! "experiences"
      = Some (VList [VDoc [("company", VStr "ACME"); ("role", VStr "dev");
                           ("start", VStr "2020"); ("end", VStr "2022");
                           ("description", VStr "backend")]])
    ∧ doc !! "education"
      = Some (VList [VDoc [("school", VStr "MIT"); ("degree", VStr "BSc");
                           ("start", VStr "2016"); ("end", VStr "2020");
                           ("details", VNone)]])
    ∧ doc !! "projects"
      = Some (VList [VDoc [("name", VStr "sensai");
                           ("link", VStr "https://x.org");
                           ("description", VNone)]]).
Proof.
  apply (get_resume_after_upsert replacing_resume after_first_resume
           {| quiz := []; resume := resumes after_first_resume |}).
  reflexivity.
Defined.

(** X13: a user without a resume gets the empty document, as a value and
    not as an error, and the world stays as it was. *)
Theorem get_resume_missing_is_empty uid w d :
  db w = Some d →
  Forall (λ doc, matches uid doc = false) (resume d) →
  get_resume uid w = (inr ∅, w).
Proof.
  intros Hd Hnone. rewrite (get_resume_run _ _ _ Hd).
  unfold find_one_without_id, find_one.
  replace (filter _ (resume d)) with (@nil (gmap string value)); [done|].
  induction Hnone as [|doc coll Hdoc Hcoll IH]; [done|].
  by rewrite filter_cons_False by (by rewrite Hdoc).
Qed.

Lemma get_resume_missing_is_empty_witness :
  get_resume "v" after_first_resume = (inr ∅, after_first_resume).
Proof.
  apply (get_resume_missing_is_empty "v" after_first_resume
           {| quiz := []; resume := resumes after_first_resume |}).
  - reflexivity.
  - simpl. repeat constructor.
Defined.

(** X14: [GET /api/resume] never shows the store's ["_id"] and never
    changes the world.  A non-empty answer is the first stored document
    matching the user, with its ["_id"] removed. *)
Theorem get_resume_hides_id uid w w' doc :
  get_resume uid w = (inr doc, w') →
  w' = w
  ∧ doc !! "_id" = None
  ∧ (doc = ∅
     ∨ ∃ stored, find_one uid (resumes w) = Some stored
         ∧ matches uid stored = true
         ∧ doc = delete "_id" stored).
Proof.
  destruct (db w) as [d|] eqn:Hd.
  - rewrite (get_resume_run _ _ _ Hd). intros [= <- <-].
    split; [done|]. unfold find_one_without_id, resumes. rewrite Hd.
    destruct (find_one uid (resume d)) as [stored|] eqn:Hfind; simpl.
    + split; [apply lookup_delete_eq|]. right. exists stored.
      split_and!; try done.
      unfold find_one in Hfind.
      apply head_Some_elem_of, list_elem_of_filter in Hfind. tauto.
    + split; [done|by left].
  - unfold get_resume, bind, get_db, raise. by rewrite Hd.
Qed.

Lemma get_resume_hides_id_witness :
  get_resume "u" legacy_world = (inr (delete "_id" legacy_resume), legacy_world)
  ∧ legacy_world = legacy_world
  ∧ delete "_id" legacy_resume !! "_id" = None
  ∧ (delete "_id" legacy_resume = ∅
     ∨ ∃ stored, find_one "u" (resumes legacy_world) = Some stored
         ∧ matches "u" stored = true
         ∧ delete "_id" legacy_resume = delete "_id" stored).
Proof.
  assert (Hrun : get_resume "u" legacy_world
                 = (inr (delete "_id" legacy_resume), legacy_world)).
  { apply (get_resume_run "u" legacy_world legacy_db). reflexivity. }
  split; [exact Hrun|].
  exact (get_resume_hides_id "u" legacy_world legacy_world _ Hrun).
Defined.

(** ** Sub-records of a resume *)

Lemma validate_items_error {R A}
    (v : list loc_item → R → list field_error + A) at_ n l i x err :
  l !! i = Some x →
  err ∈ errors_of (v (at_ ++ [Index (n + i)]) x) →
  ∃ errs, validate_items v at_ n l = inl errs ∧ err ∈ errs.
Proof.
  revert n i. induction l as [|y l IH]; intros n i Hi Herr; [done|].
  destruct i as [|i]; simpl in Hi.
  - injection Hi as ->. rewrite Nat.add_0_r in Herr. simpl.
    destruct (v (at_ ++ [Index n]) x) as [es|a]; simpl in Herr.
    + exists (es ++ errors_of (validate_items v at_ (S n) l)).
      split; [by destruct (validate_items v at_ (S n) l)|].
      apply elem_of_app. by left.
    + by apply elem_of_nil in Herr.
  - replace (n + S i)%nat with (S n + i)%nat in Herr by lia.
    destruct (IH (S n) i Hi Herr) as (errs & Hrest & Hin).
    simpl. rewrite Hrest.
    exists (errors_of (v (at_ ++ [Index n]) y) ++ errs). split.
    + by destruct (v (at_ ++ [Index n]) y).
    + apply elem_of_app. by right.
Qed.

Lemma validate_items_inr {R A}
    (v : list loc_item → R → list field_error + A) at_ n l out :
  validate_items v at_ n l = inr out →
  Forall2 (λ x a, ∃ loc, v loc x = inr a) l out.
Proof.
  revert n out. induction l as [|x l IH]; intros n out; simpl.
  - intros [= <-]. constructor.
  - destruct (v (at_ ++ [Index n]) x) as [es|a] eqn:Hx;
      [by destruct (validate_items v at_ (S n) l)|].
    destruct (validate_items v at_ (S n) l) as [es|rest] eqn:Hrest; [done|].
    intros [= <-]. constructor; [by eexists|]. by eapply IH.
Qed.

(** X15: a resume whose [i]-th experience has no [company] is rejected
    before anything is stored, and the error names the place:
    [experiences], position [i], [company]. *)
Theorem experience_without_company_rejected raw l i e w :
  raw_experiences raw = Some l →
  l !! i = Some e →
  raw_company e = None →
  ∃ errs,
    post_api_resume raw w = (inl (ValidationError errs), w)
    ∧ ([Key "experiences"; Index i; Key "company"], Missing) ∈ errs.
Proof.
  intros Hl Hi Hc.
  destruct (validate_items_error ResumeExperience_validate
              [Key "experiences"] 0 l i e
              ([Key "experiences"; Index i; Key "company"], Missing) Hi)
    as (errs & Hv & Hin).
  { unfold ResumeExperience_validate. rewrite Hc. simpl.
    repeat case_match; simpl; left. }
  assert (Hx : list_field ResumeExperience_validate "experiences"
                 (raw_experiences raw) = inl errs)
    by (by rewrite Hl).
  unfold post_api_resume, ResumeIn_validate. rewrite Hx.
  destruct (str_field _ _) as [eu|u];
    destruct (list_field ResumeEducation_validate _ _),
      (list_field ResumeProject_validate _ _);
    cbv zeta iota; (eexists; split; [reflexivity|]); simpl;
    rewrite ?elem_of_app; tauto.
Qed.

Lemma experience_without_company_rejected_witness :
  ∃ errs,
    post_api_resume
      {| raw_resume_user_id := Some "u"; raw_email := None;
         raw_linkedin := None; raw_twitter := None; raw_summary := None;
         raw_skills := None;
         raw_experiences :=
           Some [mkRawExperience (Some "A") (Some "dev") (Some "2020")
                   (Some "2021") None;
                 mkRawExperience None (Some "dev") (Some "2021")
                   (Some "2022") None];
         raw_education := None; raw_projects := None |}
      empty_world
    = (inl (ValidationError errs), empty_world)
    ∧ ([Key "experiences"; Index 1; Key "company"], Missing) ∈ errs.
Proof.
  apply (experience_without_company_rejected _
           [mkRawExperience (Some "A") (Some "dev") (Some "2020")
              (Some "2021") None;
            mkRawExperience None (Some "dev") (Some "2021")
              (Some "2022") None]
           1 (mkRawExperience None (Some "dev") (Some "2021")
                (Some "2022") None));
    reflexivity.
Defined.

Lemma ResumeExperience_validate_inr at_ raw e :
  ResumeExperience_validate at_ raw = inr e → experience_of raw e.
Proof.
  unfold ResumeExperience_validate, str_field, experience_of.
  destruct (raw_company raw), (raw_role raw), (raw_exp_start raw),
    (raw_exp_end raw); try done.
  by intros [= <-].
Qed.

Lemma ResumeEducation_validate_inr at_ raw e :
  ResumeEducation_validate at_ raw = inr e → education_of raw e.
Proof.
  unfold ResumeEducation_validate, str_field, education_of.
  destruct (raw_school raw), (raw_degree raw), (raw_edu_start raw),
    (raw_edu_end raw); try done.
  by intros [= <-].
Qed.

Lemma ResumeProject_validate_inr at_ raw p :
  ResumeProject_validate at_ raw = inr p → project_of raw p.
Proof.
  unfold ResumeProject_validate, str_field, project_of.
  destruct (raw_name raw); [|done]. by intros [= <-].
Qed.

Lemma list_field_inr {R A}
    (v : list loc_item → R → list field_error + A) name o out
    (rel : R → A → Prop) :
  (∀ loc x a, v loc x = inr a → rel x a) →
  list_field v name o = inr out →
  Forall2 rel (default [] o) out.
Proof.
  intros Hv. unfold list_field. destruct o as [l|]; simpl.
  - intros Hl%validate_items_inr.
    eapply Forall2_impl; [exact Hl|].
    intros x a [loc Hx]. by eapply Hv.
  - intros [= <-]. constructor.
Qed.

(** X16: a valid resume is stored as sent.  The validated payload has the
    body's [user_id], and its experiences, education entries and projects
    are the body's, one for one and in the same order, each with the
    body's values; an absent list is the empty list. *)
Theorem ResumeIn_validate_keeps_lists raw payload :
  ResumeIn_validate raw = inr payload →
  raw_resume_user_id raw = Some (resume_user_id payload)
  ∧ Forall2 experience_of (default [] (raw_experiences raw))
      (experiences payload)
  ∧ Forall2 education_of (default [] (raw_education raw))
      (education payload)
  ∧ Forall2 project_of (default [] (raw_projects raw)) (projects payload).
Proof.
  unfold ResumeIn_validate.
  destruct (str_field _ _) as [?|u] eqn:Hu; [by repeat case_match|].
  destruct (list_field ResumeExperience_validate _ _) as [?|x] eqn:Hx;
    [by repeat case_match|].
  destruct (list_field ResumeEducation_validate _ _) as [?|e] eqn:He;
    [by repeat case_match|].
  destruct (list_field ResumeProject_validate _ _) as [?|p] eqn:Hp; [done|].
  intros [= <-]. simpl. split_and!.
  - unfold str_field in Hu. destruct (raw_resume_user_id raw); [|done].
    by injection Hu as ->.
  - eapply list_field_inr; [|exact Hx].
    apply ResumeExperience_validate_inr.
  - eapply list_field_inr; [|exact He].
    apply ResumeEducation_validate_inr.
  - eapply list_field_inr; [|exact Hp].
    apply ResumeProject_validate_inr.
Qed.

Lemma ResumeIn_validate_keeps_lists_witness :
  raw_resume_user_id first_resume_body = Some "u"
  ∧ Forall2 experience_of (default [] (raw_experiences first_resume_body))
      (experiences first_resume)
  ∧ Forall2 education_of (default [] (raw_education first_resume_body))
      (education first_resume)
  ∧ Forall2 project_of (default [] (raw_projects first_resume_body))
      (projects first_resume).
Proof.
  apply (ResumeIn_validate_keeps_lists first_resume_body first_resume).
  reflexivity.
Defined.

(** ** Cover letters *)

Section CoverLetterFacts.
Context {E : Type}.
Context (post : Request → E + Response (E := E)).
Context (str_exn : exn (E := E) → str).
Context (getenv : gmap string str).

Lemma generate_cover_letter_with_key payload api_key :
  getenv !! "OPENAI_API_KEY" = Some api_key →
  api_key ≠ [] →
  generate_cover_letter post str_exn getenv payload
  = match ask post (chat_request getenv api_key payload) with
    | inr out => inr out
    | inl e => inl (HTTPError 500 (str_exn e))
    end.
Proof.
  intros Hkey Hne. unfold generate_cover_letter. rewrite Hkey.
  by destruct api_key.
Qed.

(** X17: the cover-letter endpoint fails with status 400 exactly when
    [OPENAI_API_KEY] is unset or empty, and then with the detail
    "OPENAI_API_KEY not set"; every other failure has status 500.  An error
    status of the upstream API (401, 429, ...) is never passed on. *)
Theorem cover_letter_error_status payload status detail :
  generate_cover_letter post str_exn getenv payload
  = inl (HTTPError status detail) →
  (status = 400
   ∧ detail = str_of "OPENAI_API_KEY not set"
   ∧ (getenv !! "OPENAI_API_KEY" = None
      ∨ getenv !! "OPENAI_API_KEY" = Some []))
  ∨ (status = 500
     ∧ ∃ api_key, getenv !! "OPENAI_API_KEY" = Some api_key
         ∧ api_key ≠ []).
Proof.
  unfold generate_cover_letter.
  destruct (getenv !! "OPENAI_API_KEY") as [[|c api_key]|] eqn:Hkey.
  - intros [= <- <-]. left. split_and!; auto.
  - destruct (ask _ _); [|done]. intros [= <- <-]. right.
    split; [done|]. by exists (c :: api_key).
  - intros [= <- <-]. left. split_and!; auto.
Qed.

(** X18: without an API key, unset or empty, the endpoint answers 400
    whatever the client would do: the result does not depend on the client,
    so no request is made. *)
Theorem cover_letter_needs_api_key payload :
  getenv !! "OPENAI_API_KEY" = None
  ∨ getenv !! "OPENAI_API_KEY" = Some [] →
  generate_cover_letter post str_exn getenv payload
  = inl (HTTPError 400 (str_of "OPENAI_API_KEY not set")).
Proof.
  intros [Hkey|Hkey]; unfold generate_cover_letter; by rewrite Hkey.
Qed.

(** X19: reading the upstream answer.  With a key, a status below 400 and a
    JSON object as answer: the content of the message of the first choice
    is returned as it is; an answer without ["choices"] gives the empty
    text; an answer whose ["choices"] is the empty list is an error 500. *)
Theorem cover_letter_reads_first_choice payload api_key resp data :
  getenv !! "OPENAI_API_KEY" = Some api_key →
  api_key ≠ [] →
  post (chat_request getenv api_key payload) = inr resp →
  status_code resp < 400 →
  resp_json resp = inr (JObj data) →
  (∀ choice rest message content,
     data !! "choices" = Some (JArr (JObj choice :: rest)) →
     choice !! "message" = Some (JObj message) →
     message !! "content" = Some content →
     generate_cover_letter post str_exn getenv payload
     = inr {| text := content |})
  ∧ (data !! "choices" = None →
     generate_cover_letter post str_exn getenv payload
     = inr {| text := JStr [] |})
  ∧ (data !! "choices" = Some (JArr []) →
     generate_cover_letter post str_exn getenv payload
     = inl (HTTPError 500 (str_exn IndexError))).
Proof.
  intros Hkey Hne Hpost Hstatus Hjson.
  rewrite (generate_cover_letter_with_key _ _ Hkey Hne).
  unfold ask. rewrite Hpost.
  destruct (Z.leb_spec 400 (status_code resp)); [lia|].
  rewrite Hjson. unfold content_of, json_get.
  split_and!.
  - intros choice rest message content Hc Hm Ht.
    rewrite Hc. simpl. rewrite Hm. simpl. by rewrite Ht.
  - intros Hc. rewrite Hc. simpl. by rewrite !lookup_empty.
  - intros Hc. by rewrite Hc.
Qed.

(** X20: when the upstream API answers with a status of 400 or more, the
    endpoint fails with status 500 and the answer is not parsed as JSON.
    The handler raises an [HTTPException] with the detail "OpenAI error: "
    and the first 200 characters of the answer's text, catches it, and
    reports [str(e)] of it.  With the framework's [str] of an
    [HTTPException], status code, colon, detail, the detail reported to the
    caller is "500: OpenAI error: " followed by the first 200 characters of
    the answer's text: at most 219 characters. *)
Theorem cover_letter_truncates_upstream_error payload api_key resp :
  getenv !! "OPENAI_API_KEY" = Some api_key →
  api_key ≠ [] →
  post (chat_request getenv api_key payload) = inr resp →
  400 ≤ status_code resp →
  (∀ detail, str_exn (HTTPRaised 500 detail) = str_of "500: " ++ detail) →
  ∃ reported,
    generate_cover_letter post str_exn getenv payload
    = inl (HTTPError 500 reported)
    ∧ reported
      = str_of "500: OpenAI error: " ++ take 200 (resp_text resp)
    ∧ (length reported ≤ 219)%nat
    ∧ (length reported
       = 19 + Nat.min 200 (length (resp_text resp)))%nat.
Proof.
  intros Hkey Hne Hpost Hstatus Hstr. eexists.
  rewrite (generate_cover_letter_with_key _ _ Hkey Hne).
  unfold ask. rewrite Hpost.
  destruct (Z.leb_spec 400 (status_code resp)); [|lia].
  rewrite Hstr. split; [done|].
  assert (Hlen : length (str_of "500: " ++ str_of "OpenAI error: "
                         ++ take 200 (resp_text resp))
                 = (19 + Nat.min 200 (length (resp_text resp)))%nat).
  { rewrite !length_app, length_take.
    change (length (str_of "500: ")) with 5%nat.
    change (length (str_of "OpenAI error: ")) with 14%nat. lia. }
  split; [by rewrite app_assoc|]. rewrite Hlen. split; [lia|done].
Qed.

(** X21: a missing and an empty [user_name] are the same candidate: the
    prompt sent for either is the prompt sent for the name
    "The candidate". *)
Theorem cover_letter_default_candidate payload api_key :
  user_name payload = None ∨ user_name payload = Some [] →
  chat_request getenv api_key payload
  = chat_request getenv api_key
      {| company_name := company_name payload;
         job_title := job_title payload;
         job_description := job_description payload;
         user_name := Some (str_of "The candidate") |}.
Proof.
  intros [Hn|Hn]; unfold chat_request, user_prompt, candidate; simpl;
    by rewrite Hn.
Qed.
End CoverLetterFacts.

Lemma cover_letter_error_status_witness :
  (500 = 400
   ∧ str_of "OpenAI error: " ++ repeat 120%N 200
     = str_of "OPENAI_API_KEY not set"
   ∧ (key_env !! "OPENAI_API_KEY" = None
      ∨ key_env !! "OPENAI_API_KEY" = Some []))
  ∨ (500 = 500
     ∧ ∃ api_key, key_env !! "OPENAI_API_KEY" = Some api_key
         ∧ api_key ≠ []).
Proof.
  apply (cover_letter_error_status (λ _, inr upstream_refusal) exn_name
           key_env letter_request).
  reflexivity.
Defined.

Lemma cover_letter_needs_api_key_witness :
  generate_cover_letter (λ _, inr letter_answer) exn_name ∅ letter_request
  = inl (HTTPError 400 (str_of "OPENAI_API_KEY not set")).
Proof.
  apply (cover_letter_needs_api_key (λ _, inr letter_answer) exn_name ∅
           letter_request).
  left. reflexivity.
Defined.

Lemma cover_letter_reads_first_choice_witness :
  generate_cover_letter (λ _, inr letter_answer) exn_name key_env
    letter_request
  = inr {| text := JStr (str_of "Dear") |}.
Proof.
  apply (proj1 (cover_letter_reads_first_choice
                  (λ _, inr letter_answer) exn_name key_env letter_request
                  (str_of "sk-test") letter_answer
                  {["choices" :=
                      JArr [JObj {["message" :=
                              JObj {["content" := JStr (str_of "Dear")]}]}]]}
                  eq_refl ltac:(discriminate) eq_refl ltac:(simpl; lia)
                  eq_refl)
           {["message" := JObj {["content" := JStr (str_of "Dear")]}]} []
           {["content" := JStr (str_of "Dear")]} (JStr (str_of "Dear")));
    reflexivity.
Defined.

(** X20, at an upstream answer 429 with a text of 300 characters: the
    reported detail has 219 characters. *)
Lemma cover_letter_truncates_upstream_error_witness :
  ∃ reported,
    generate_cover_letter (λ _, inr upstream_refusal) exn_str key_env
      letter_request
    = inl (HTTPError 500 reported)
    ∧ reported = str_of "500: OpenAI error: " ++ repeat 120%N 200
    ∧ (length reported ≤ 219)%nat
    ∧ length reported = 219%nat.
Proof.
  apply (cover_letter_truncates_upstream_error (λ _, inr upstream_refusal)
           exn_str key_env letter_request (str_of "sk-test")
           upstream_refusal).
  - reflexivity.
  - discriminate.
  - reflexivity.
  - simpl. lia.
  - reflexivity.
Defined.

Lemma cover_letter_default_candidate_witness :
  chat_request key_env (str_of "sk-test") letter_request
  = chat_request key_env (str_of "sk-test")
      {| company_name := str_of "ACME"; job_title := str_of "Engineer";
         job_description := str_of "Build things";
         user_name := Some (str_of "The candidate") |}.
Proof.
  apply (cover_letter_default_candidate key_env letter_request
           (str_of "sk-test")).
  right. reflexivity.
Defined.

(** ** The diagnostic endpoint *)

Section DiagnosticsFacts.
Context {E : Type} (str_e : E → str).

(** X22: the report says of the database URL and name only whether the
    environment variables [DATABASE_URL] and [DATABASE_NAME] are set and
    not empty.  Neither field depends on the store handle: the name of the
    database, read from the handle, is overwritten and never reported. *)
Theorem test_database_reports_settings_only
    (handle handle' : option (DbHandle (E := E))) getenv :
  database_url (test_database str_e handle getenv)
  = Some (set_or_not (env_set getenv "DATABASE_URL"))
  ∧ database_name (test_database str_e handle getenv)
    = Some (set_or_not (env_set getenv "DATABASE_NAME"))
  ∧ database_url (test_database str_e handle getenv)
    = database_url (test_database str_e handle' getenv)
  ∧ database_name (test_database str_e handle getenv)
    = database_name (test_database str_e handle' getenv).
Proof. by split_and!. Qed.

(** X23: the report lists at most 10 collections, the first 10 the driver
    returns, and only when the listing succeeded; without a store handle
    it lists none and says "Not Connected". *)
Theorem test_database_lists_first_ten
    (handle : option (DbHandle (E := E))) getenv :
  (length (collections (test_database str_e handle getenv)) ≤ 10)%nat
  ∧ (handle = None →
     collections (test_database str_e handle getenv) = []
     ∧ connection_status (test_database str_e handle getenv)
       = str_of "Not Connected"
     ∧ database (test_database str_e handle getenv)
       = warning_sign ++ str_of " Available but not initialized")
  ∧ (∀ h n found,
       handle = Some h → db_name h = inr n →
       list_collection_names h = inr found →
       collections (test_database str_e handle getenv) = take 10 found
       ∧ connection_status (test_database str_e handle getenv)
         = str_of "Connected"
       ∧ database (test_database str_e handle getenv)
         = check_mark ++ str_of " Connected & Working")
  ∧ (∀ h e,
       handle = Some h →
       db_name h = inl e ∨ list_collection_names h = inl e →
       collections (test_database str_e handle getenv) = []).
Proof.
  split_and!.
  - unfold test_database.
    destruct handle as [h|]; simpl; [|lia].
    destruct (db_name h); simpl; [lia|].
    destruct (list_collection_names h); simpl; [lia|].
    rewrite length_take. lia.
  - by intros ->.
  - intros h n found -> Hn Hfound. unfold test_database.
    by rewrite Hn, Hfound.
  - intros h e -> [He|He]; unfold test_database.
    + by rewrite He.
    + rewrite He. by destruct (db_name h).
Qed.

(** X24: a failure of the driver is reported, not raised.  When the listing
    of the collections fails, the report says "Connected but Error: "
    followed by the first 50 characters of the exception's text and keeps
    the status "Connected"; when reading the name of the database fails,
    it says "Error: " followed by the first 50 characters and the status
    stays "Not Connected". *)
Theorem test_database_reports_driver_errors
    (h : DbHandle (E := E)) getenv e :
  (∀ n, db_name h = inr n → list_collection_names h = inl e →
     database (test_database str_e (Some h) getenv)
     = warning_sign ++ str_of " Connected but Error: " ++ take 50 (str_e e)
     ∧ connection_status (test_database str_e (Some h) getenv)
       = str_of "Connected"
     ∧ (length (database (test_database str_e (Some h) getenv)) ≤ 74)%nat)
  ∧ (db_name h = inl e →
     database (test_database str_e (Some h) getenv)
     = cross_mark ++ str_of " Error: " ++ take 50 (str_e e)
     ∧ connection_status (test_database str_e (Some h) getenv)
       = str_of "Not Connected"
     ∧ (length (database (test_database str_e (Some h) getenv)) ≤ 59)%nat).
Proof.
  split.
  - intros n Hn He.
    assert (Hdb : database (test_database str_e (Some h) getenv)
                  = warning_sign ++ str_of " Connected but Error: "
                    ++ take 50 (str_e e))
      by (unfold test_database; by rewrite Hn, He).
    split_and!; [exact Hdb|unfold test_database; by rewrite Hn, He|].
    rewrite Hdb, !length_app, length_take.
    change (length warning_sign) with 2%nat.
    change (length (str_of " Connected but Error: ")) with 22%nat. lia.
  - intros He.
    assert (Hdb : database (test_database str_e (Some h) getenv)
                  = cross_mark ++ str_of " Error: " ++ take 50 (str_e e))
      by (unfold test_database; by rewrite He).
    split_and!; [exact Hdb|unfold test_database; by rewrite He|].
    rewrite Hdb, !length_app, length_take.
    change (length cross_mark) with 1%nat.
    change (length (str_of " Error: ")) with 8%nat. lia.
Qed.
End DiagnosticsFacts.

Lemma test_database_lists_first_ten_witness :
  collections (test_database str_of (Some working_handle) ∅)
  = take 10 (map (λ n, [N.of_nat n]) (seq 0 12))
  ∧ connection_status (test_database str_of (Some working_handle) ∅)
    = str_of "Connected"
  ∧ database (test_database str_of (Some working_handle) ∅)
    = check_mark ++ str_of " Connected & Working".
Proof.
  apply (proj1 (proj2 (proj2 (test_database_lists_first_ten str_of
                                (Some working_handle) ∅)))
           working_handle (str_of "sensai")
           (map (λ n, [N.of_nat n]) (seq 0 12)));
    reflexivity.
Defined.

Lemma test_database_reports_driver_errors_witness :
  database (test_database str_of (Some failing_handle) ∅)
  = warning_sign ++ str_of " Connected but Error: "
    ++ take 50 (str_of "timed out")
  ∧ connection_status (test_database str_of (Some failing_handle) ∅)
    = str_of "Connected"
  ∧ (length (database (test_database str_of (Some failing_handle) ∅))
     ≤ 74)%nat.
Proof.
  apply (proj1 (test_database_reports_driver_errors str_of failing_handle ∅
                  "timed out") (str_of "sensai"));
    reflexivity.
Defined.

(** ** Documents without [created_at] next to dated ones *)

Section SortedCheckedFacts.
Context {A : Type} (key : A → awareness * datetime).





Lemma insert_checked_one_awareness c x s :
  (key x).1 = c →
  Forall (λ y, (key y).1 = c) s →
  insert_checked key x s = Some (insert_by (λ y, (key y).2) x s).
Proof.
  intros Hx. induction 1 as [|y s Hy Hs IH]; simpl; [done|].
  unfold datetime_lt. rewrite Hx, Hy.
  replace (same_awareness c c) with true by (by destruct c).
  destruct (N.ltb_spec (key y).2 (key x).2) as [Hlt|Hge].
  - destruct (N.leb_spec (key x).2 (key y).2); [lia|]. by rewrite IH.
  - by destruct (N.leb_spec (key x).2 (key y).2); [|lia].
Qed.

(** On keys of one awareness the sort is [sorted] on the instants. *)
Lemma sorted_checked_one_awareness_sorted c l :
  Forall (λ x, (key x).1 = c) l →
  sorted_checked key l = Some (sorted (λ x, (key x).2) l).
Proof.
  induction 1 as [|x l Hx Hl IH]; simpl; [done|].
  rewrite IH. simpl. apply (insert_checked_one_awareness c); [done|].
  by rewrite sorted_perm.
Qed.
End SortedCheckedFacts.






Lemma insert_by_fmap {A B} (key : A → datetime) (f : B → A) x l :
  insert_by key (f x) (map f l) = map f (insert_by (λ y, key (f y)) x l).
Proof.
  induction l as [|y l IH]; simpl; [done|].
  destruct (key (f x) <=? key (f y))%N; simpl; [done|]. by rewrite IH.
Qed.

Lemma sorted_fmap {A B} (key : A → datetime) (f : B → A) l :
  sorted key (map f l) = map f (sorted (λ y, key (f y)) l).
Proof.
  induction l as [|x l IH]; simpl; [done|].
  rewrite IH. apply insert_by_fmap.
Qed.

Lemma created_at_tz_key_naive items :
  Forall (λ x, is_Some (q_created_at (fetched x)) → created_at_tz x = Naive)
    items →
  Forall (λ x, (created_at_tz_key x).1 = Naive) items.
Proof.
  intros Hall. eapply Forall_impl; [exact Hall|].
  intros x Hx. unfold created_at_tz_key.
  destruct (q_created_at (fetched x)) as [t|] eqn:Ht; [|done].
  simpl. apply Hx. by eexists.
Qed.

Lemma created_at_tz_key_instant x :
  (created_at_tz_key x).2 = default datetime_min (q_created_at (fetched x)).
Proof. unfold created_at_tz_key. by destruct (q_created_at (fetched x)). Qed.

Lemma insert_by_ext {A} (key key' : A → datetime) x l :
  (∀ y, key y = key' y) → insert_by key x l = insert_by key' x l.
Proof.
  intros Hk. induction l as [|y l IH]; simpl; [done|].
  by rewrite !Hk, IH.
Qed.

Lemma sorted_ext {A} (key key' : A → datetime) l :
  (∀ y, key y = key' y) → sorted key l = sorted key' l.
Proof.
  intros Hk. induction l as [|x l IH]; simpl; [done|].
  rewrite IH. by apply insert_by_ext.
Qed.

Lemma sorted_instant l :
  sorted (λ x, (created_at_tz_key x).2) l
  = sorted (λ x, created_at_key (fetched x)) l.
Proof. apply sorted_ext. intros x. apply created_at_tz_key_instant. Qed.

Lemma quiz_stats_checked_naive items :
  Forall (λ x, (created_at_tz_key x).1 = Naive) items →
  quiz_stats_checked items = Some (quiz_stats_of (map fetched items)).
Proof.
  intros Hnaive. destruct items as [|first rest]; [done|].
  unfold quiz_stats_checked.
  rewrite (sorted_checked_one_awareness_sorted _ Naive) by done.
  rewrite sorted_instant. cbv beta iota zeta.
  change (map fetched (first :: rest))
    with (fetched first :: map fetched rest).
  rewrite quiz_stats_of_cons.
  change (fetched first :: map fetched rest)
    with (map fetched (first :: rest)).
  by rewrite !map_map, !length_map, sorted_fmap, last_map_default.
Qed.

(** X25: when the [created_at] of every fetched record that has one is
    offset-naive, a record without [created_at] does sort as the earliest.
    Both endpoints return; in the recent list, the records that follow a
    record without [created_at] have none either or are dated
    [datetime.min]; and as soon as one record is dated later than
    [datetime.min], [latest_score] is the score of a dated record, no
    earlier than that one. *)
Theorem naive_created_at_sorts_missing_earliest items :
  Forall (λ x, is_Some (q_created_at (fetched x)) → created_at_tz x = Naive)
    items →
  ∃ recent st,
    recent_quizzes_checked items = Some recent
    ∧ quiz_stats_checked items = Some st
    ∧ recent ≡ₚ items
    ∧ (∀ before r after,
         recent = before ++ r :: after →
         q_created_at (fetched r) = None →
         Forall (λ x, q_created_at (fetched x) = None
                      ∨ q_created_at (fetched x) = Some datetime_min)
           after)
    ∧ (∀ x t,
         x ∈ items → q_created_at (fetched x) = Some t →
         (datetime_min < t)%N →
         ∃ newest t',
           newest ∈ items
           ∧ q_created_at (fetched newest) = Some t'
           ∧ (t ≤ t')%N
           ∧ latest_score st = default 0 (q_score (fetched newest))).
Proof.
  intros Hnaive%created_at_tz_key_naive.
  set (instant := λ x : FetchedQuiz, (created_at_tz_key x).2).
  assert (Hrecent : recent_quizzes_checked items
                    = Some (sorted_reverse instant items)).
  { unfold recent_quizzes_checked, sorted_reverse_checked, sorted_reverse.
    rewrite (sorted_checked_one_awareness_sorted _ Naive); [done|].
    rewrite Forall_forall in Hnaive |- *. intros x Hx.
    by apply Hnaive, list_elem_of_In, in_rev, list_elem_of_In. }
  exists (sorted_reverse instant items),
    (quiz_stats_of (map fetched items)).
  split; [done|]. split; [by apply quiz_stats_checked_naive|].
  split; [apply sorted_reverse_perm|]. split.
  - intros before r after Heq Hnone.
    pose proof (sorted_reverse_descending instant items) as Hsorted.
    rewrite Heq in Hsorted.
    apply StronglySorted_app_1_r, StronglySorted_cons in Hsorted
      as [Hafter _].
    eapply Forall_impl; [exact Hafter|].
    intros x. unfold descending, instant.
    rewrite !created_at_tz_key_instant, Hnone. simpl.
    destruct (q_created_at (fetched x)) as [t|]; simpl; [|by left].
    intros Ht. right. f_equal. unfold datetime_min in *. lia.
  - intros x t Hx Ht Hlater.
    destruct items as [|first rest]; [by apply elem_of_nil in Hx|].
    destruct (last_largest_split instant first rest)
      as (l1 & r & l2 & Heq & H1 & H2).
    assert (Hmax : (t ≤ instant r)%N).
    { assert (Hxt : instant x = t).
      { unfold instant. by rewrite created_at_tz_key_instant, Ht. }
      rewrite <- Hxt. rewrite Heq in Hx.
      apply elem_of_app in Hx as [Hx|Hx].
      - rewrite Forall_forall in H1. by apply H1.
      - apply elem_of_cons in Hx as [->|Hx]; [done|].
        rewrite Forall_forall in H2. specialize (H2 x Hx). lia. }
    unfold instant in Hmax. rewrite created_at_tz_key_instant in Hmax.
    destruct (q_created_at (fetched r)) as [t'|] eqn:Hr;
      [|simpl in Hmax; unfold datetime_min in *; lia].
    exists r, t'. split_and!; try done.
    + rewrite Heq. apply list_elem_of_In, in_elt.
    + change (map fetched (first :: rest))
        with (fetched first :: map fetched rest).
      rewrite quiz_stats_of_cons. cbn [latest_score].
      change (fetched first :: map fetched rest)
        with (map fetched (first :: rest)).
      rewrite sorted_fmap, last_map_default.
      rewrite <- sorted_instant. fold instant.
      by rewrite Heq, sorted_last.
Qed.

(** X25, at three records whose [created_at] came back without time zone,
    the one without [created_at] first in the store: it is last in the
    recent list, and the latest score is that of the record dated 9. *)
Lemma naive_created_at_sorts_missing_earliest_witness :
  recent_quizzes_checked naive_and_bare
  = Some [as_naive (stored_quiz "u" 90 9 9);
          as_naive (stored_quiz "u" 80 5 5); as_naive (bare_quiz "u")]
  ∧ ∃ st, quiz_stats_checked naive_and_bare = Some st
      ∧ latest_score st = 90.
Proof.
  destruct (naive_created_at_sorts_missing_earliest naive_and_bare)
    as (recent & st & Hrecent & Hstats & _ & _ & Hlatest).
  - repeat (apply Forall_cons; split; [done|]). apply Forall_nil_2.
  - split; [reflexivity|]. exists st. split; [exact Hstats|].
    injection Hstats as <-. reflexivity.
Defined.
